(** * gentoo_update: the log parser
    ([src/gentoo_update/parser.py], [src/gentoo_update/parser_package.py])

    A shallow embedding of the section splitter and of the package-line
    parser, with Python's [str] and [list] operations written out.

    Characters are the code points below 256 (type [ascii]); the two
    character classes the code relies on, [str.isspace] (through
    [str.strip]) and [str.isnumeric], are given on that range.  Integers are
    Python's unbounded ones ([Z]).  An exception is a value of type [exn]
    carried by the [Raise] constructor of [result]. *)

From Stdlib Require Import Ascii String List ZArith Bool Arith Lia.
Import ListNotations.

Open Scope list_scope.

(** ** Python strings *)

Module PyStr.

Definition str := list ascii.

(** A string literal. *)
Definition lit (s : string) : str := list_ascii_of_string s.
Arguments lit s%_string.

Definition str_eqb (a b : str) : bool :=
  if list_eq_dec ascii_dec a b then true else false.

(** [sub.startswith]-style test: [p] is a prefix of [s]. *)
Fixpoint prefixb (p s : str) : bool :=
  match p, s with
  | [], _ => true
  | _ :: _, [] => false
  | a :: p', b :: s' => Ascii.eqb a b && prefixb p' s'
  end.

(** [sub in s]. *)
Fixpoint contains (sub s : str) : bool :=
  match s with
  | [] => prefixb sub []
  | _ :: s' => prefixb sub s || contains sub s'
  end.

(** [str.isspace] on one character: TAB..CR, FS..US, SPACE, NEL, NBSP. *)
Definition isspace (c : ascii) : bool :=
  let n := nat_of_ascii c in
  ((9 <=? n) && (n <=? 13)) || ((28 <=? n) && (n <=? 32))
  || (n =? 133) || (n =? 160).

(** [str.isnumeric] on one character: the decimal digits, the superscripts
    one to three and the three vulgar fractions of Latin-1. *)
Definition isnumeric_char (c : ascii) : bool :=
  let n := nat_of_ascii c in
  ((48 <=? n) && (n <=? 57))
  || (n =? 178) || (n =? 179) || (n =? 185)
  || ((188 <=? n) && (n <=? 190)).

(** [s.isnumeric()]: false on the empty string. *)
Definition isnumeric (s : str) : bool :=
  match s with
  | [] => false
  | _ => forallb isnumeric_char s
  end.

(** [s.lstrip()], [s.rstrip()], [s.strip()]. *)
Fixpoint lstrip (s : str) : str :=
  match s with
  | [] => []
  | c :: s' => if isspace c then lstrip s' else s
  end.

Fixpoint rstrip (s : str) : str :=
  match s with
  | [] => []
  | c :: s' =>
      match rstrip s' with
      | [] => if isspace c then [] else [c]
      | r => c :: r
      end
  end.

Definition strip (s : str) : str := rstrip (lstrip s).

(** [s.split(sep)] for a non-empty [sep]: [skip] counts the characters of a
    separator just matched that are still to be passed over, [cur] is the
    piece being built. *)
Fixpoint split_go (sep : str) (skip : nat) (cur : str) (s : str) : list str :=
  match s with
  | [] => [cur]
  | c :: s' =>
      match skip with
      | S k => split_go sep k cur s'
      | O =>
          if prefixb sep s
          then cur :: split_go sep (length sep - 1) [] s'
          else split_go sep 0 (cur ++ [c]) s'
      end
  end.

Definition split (sep s : str) : list str := split_go sep 0 [] s.

(** [s.replace(old, new)]: every non-overlapping occurrence, left to right;
    an empty [old] matches before every character and at the end. *)
Fixpoint replace_go (old new : str) (skip : nat) (s : str) : str :=
  match s with
  | [] => []
  | c :: s' =>
      match skip with
      | S k => replace_go old new k s'
      | O =>
          if prefixb old s
          then new ++ replace_go old new (length old - 1) s'
          else c :: replace_go old new 0 s'
      end
  end.

Fixpoint intersperse_str (new : str) (s : str) : str :=
  match s with
  | [] => new
  | c :: s' => new ++ c :: intersperse_str new s'
  end.

Definition replace (old new s : str) : str :=
  match old with
  | [] => intersperse_str new s
  | _ => replace_go old new 0 s
  end.

(** [sep.join(l)]. *)
Fixpoint join (sep : str) (l : list str) : str :=
  match l with
  | [] => []
  | [x] => x
  | x :: l' => x ++ sep ++ join sep l'
  end.

(** Slices [s[1:]], [s[:-1]] and [s[1:-1]]. *)
Definition slice_from1 (s : str) : str := tl s.
Definition slice_to_last (s : str) : str := removelast s.
Definition slice_inner (s : str) : str := removelast (tl s).

End PyStr.

Import PyStr.

(** ** Exceptions *)

Inductive exn : Type :=
| IndexError
| KeyError
| AttributeError.

Inductive result (A : Type) : Type :=
| Ok (a : A)
| Raise (e : exn).
Arguments Ok {A} a.
Arguments Raise {A} e.

Definition bind {A B : Type} (m : result A) (k : A -> result B) : result B :=
  match m with
  | Ok a => k a
  | Raise e => Raise e
  end.

Notation "x <- m ;; k" := (bind m (fun x => k))
  (at level 61, m at next level, right associativity).

(** [l[i]] for [i >= 0] and [l[-1]]. *)
Definition index {A : Type} (l : list A) (i : nat) : result A :=
  match nth_error l i with
  | Some a => Ok a
  | None => Raise IndexError
  end.

Definition index_last {A : Type} (l : list A) : result A :=
  match rev l with
  | a :: _ => Ok a
  | [] => Raise IndexError
  end.

(** A [for] loop whose body may raise, over an accumulator. *)
Fixpoint for_each {A S : Type} (body : S -> A -> result S) (l : list A) (s : S)
  : result S :=
  match l with
  | [] => Ok s
  | a :: l' => s' <- body s a ;; for_each body l' s'
  end.

(** ** Regular expressions ([re.search])

    The two patterns of the source use literal characters, [.] (any
    character but a newline), a lazy [+] and a group.  Laziness and grouping
    do not change whether a match exists, which is all the source asks of
    [re.search], so the matcher works on the regular language by
    derivatives. *)

Module Re.

Inductive regex : Type :=
| Void
| Eps
| Chr (c : ascii)
| Dot
| AnyChar
| Seq (r1 r2 : regex)
| Alt (r1 r2 : regex)
| Star (r : regex).

Definition newline : ascii := ascii_of_nat 10.

Definition Plus (r : regex) : regex := Seq r (Star r).

Fixpoint nullable (r : regex) : bool :=
  match r with
  | Void => false
  | Eps => true
  | Chr _ => false
  | Dot => false
  | AnyChar => false
  | Seq r1 r2 => nullable r1 && nullable r2
  | Alt r1 r2 => nullable r1 || nullable r2
  | Star _ => true
  end.

Fixpoint deriv (a : ascii) (r : regex) : regex :=
  match r with
  | Void => Void
  | Eps => Void
  | Chr c => if Ascii.eqb a c then Eps else Void
  | Dot => if Ascii.eqb a newline then Void else Eps
  | AnyChar => Eps
  | Seq r1 r2 =>
      if nullable r1
      then Alt (Seq (deriv a r1) r2) (deriv a r2)
      else Seq (deriv a r1) r2
  | Alt r1 r2 => Alt (deriv a r1) (deriv a r2)
  | Star r1 => Seq (deriv a r1) (Star r1)
  end.

(** The whole of [s] is in the language of [r]. *)
Fixpoint fullmatch (r : regex) (s : str) : bool :=
  match s with
  | [] => nullable r
  | a :: s' => fullmatch (deriv a r) s'
  end.

(** [re.search(r, s)] as a truth value: some substring of [s] matches. *)
Definition search (r : regex) (s : str) : bool :=
  fullmatch (Seq (Star AnyChar) (Seq r (Star AnyChar))) s.

(** The language of a regular expression. *)
Inductive lang : regex -> str -> Prop :=
| L_Eps : lang Eps []
| L_Chr c : lang (Chr c) [c]
| L_Dot c : c <> newline -> lang Dot [c]
| L_Any c : lang AnyChar [c]
| L_Seq r1 r2 s1 s2 : lang r1 s1 -> lang r2 s2 -> lang (Seq r1 r2) (s1 ++ s2)
| L_AltL r1 r2 s : lang r1 s -> lang (Alt r1 r2) s
| L_AltR r1 r2 s : lang r2 s -> lang (Alt r1 r2) s
| L_Star0 r : lang (Star r) []
| L_StarS r s1 s2 : lang r s1 -> lang (Star r) s2 -> lang (Star r) (s1 ++ s2).

End Re.

(** ** Python dictionaries

    Insertion-ordered: assigning to a key that is present replaces the value
    where it stands, assigning to a new key goes to the end. *)

Module PyDict.

Definition dict (V : Type) := list (str * V).

Fixpoint get {V : Type} (d : dict V) (k : str) : option V :=
  match d with
  | [] => None
  | (k', v) :: d' => if str_eqb k' k then Some v else get d' k
  end.

Fixpoint set {V : Type} (d : dict V) (k : str) (v : V) : dict V :=
  match d with
  | [] => [(k, v)]
  | (k', v') :: d' =>
      if str_eqb k' k then (k', v) :: d' else (k', v') :: set d' k v
  end.

Definition keys {V : Type} (d : dict V) : list str := map fst d.

(** [d.update(other)]. *)
Definition update {V : Type} (d other : dict V) : dict V :=
  fold_left (fun acc kv => set acc (fst kv) (snd kv)) other d.

End PyDict.

(** A value that is either a string or a list of strings: the sections'
    mapping holds lists and, under ["final"], one string; a record's
    attributes hold one string (blocks, uninstall) or a list (ebuild). *)
Inductive value : Type :=
| VStr (s : str)
| VList (l : list str).

Definition dquote : ascii := ascii_of_nat 34.

(** ** The section splitter ([Parser.split_log_to_sections]) *)

Module Parser.

Import Re.

(** [r"\{\{(.+?)\}\}"] *)
Definition section_pattern : regex :=
  Seq (Chr "{") (Seq (Chr "{") (Seq (Plus Dot) (Seq (Chr "}") (Chr "}")))).

Definition marker : str := lit " ::: ".

(** The loop's variables: the current section's name and the mapping. *)
Record split_state : Type := {
  section_name : str;
  log_by_sections : PyDict.dict value
}.

(** [log_by_sections[section_name].append(line)]: a missing key and a value
    that is not a list are errors. *)
Definition append_line (d : PyDict.dict value) (name line : str)
  : result (PyDict.dict value) :=
  match PyDict.get d name with
  | None => Raise KeyError
  | Some (VStr _) => Raise AttributeError
  | Some (VList l) => Ok (PyDict.set d name (VList (l ++ [line])))
  end.

(** One turn of the loop over [log_data]. *)
Definition split_step (st : split_state) (line : str) : result split_state :=
  if contains marker line then
    payload <- index (split marker line) 1 ;;
    let line := strip payload in
    if search section_pattern line then
      Ok {| section_name := line;
            log_by_sections := PyDict.set st.(log_by_sections) line (VList []) |}
    else
      d <- append_line st.(log_by_sections) st.(section_name) line ;;
      Ok {| section_name := st.(section_name); log_by_sections := d |}
  else
    Ok {| section_name := st.(section_name);
          log_by_sections :=
            PyDict.set st.(log_by_sections) (lit "final") (VStr line) |}.

Definition split_init : split_state :=
  {| section_name := lit "beginning";
     log_by_sections := [(lit "beginning", VList [])] |}.

Definition split_log_to_sections (log_data : list str)
  : result (PyDict.dict value) :=
  st <- for_each split_step log_data split_init ;;
  Ok st.(log_by_sections).

End Parser.

(** ** Package records ([PackageInfo]) *)

(** Modelled from the spec: the class [PackageInfo] of
    [gentoo_update/report_objects.py], which the parser imports and which
    is not among the files embedded here.  The spec's PackageRecord has the fields [kind],
    [name], [new_version], [old_version], [status], [repo] and a mapping
    [attributes]; the record keeps the names of the six positional arguments
    the parser passes to the constructor.  The class is given no truth value
    of its own, so an instance counts as true where the parser tests
    [if package]. *)
Record PackageInfo : Type := {
  package_type : str;
  package_name : str;
  new_version : option str;
  old_version : option str;
  update_status : str;
  repo : option str;
  attributes : PyDict.dict value
}.

(** Modelled from the spec: the constructor of [PackageInfo], called with six
    positional arguments; a new record has no attribute. *)
Definition PackageInfo_init
  (package_type package_name : str) (new_version old_version : option str)
  (update_status : str) (repo : option str) : PackageInfo :=
  {| package_type := package_type;
     package_name := package_name;
     new_version := new_version;
     old_version := old_version;
     update_status := update_status;
     repo := repo;
     attributes := [] |}.

(** Modelled from the spec: the method [add_attributes] of [PackageInfo],
    which merges a mapping into [attributes]; a key that is present keeps
    its place and takes the new value. *)
Definition add_attributes (p : PackageInfo) (attrs : PyDict.dict value)
  : PackageInfo :=
  {| package_type := p.(package_type);
     package_name := p.(package_name);
     new_version := p.(new_version);
     old_version := p.(old_version);
     update_status := p.(update_status);
     repo := p.(repo);
     attributes := PyDict.update p.(attributes) attrs |}.

(** ** The package-line parser ([PackageParser]) *)

Module PackageParser.

Import Re.

(** The variables of the tokenizer's loop. *)
Record tok_state : Type := {
  split_package_string : list str;
  temp : str;
  quotes_count : Z;
  brackets_count : Z
}.

Definition tok_init : tok_state :=
  {| split_package_string := []; temp := [];
     quotes_count := 0; brackets_count := 0 |}.

(** One turn of [for char in package_string]. *)
Definition tok_step (st : tok_state) (char : ascii) : tok_state :=
  let temp := st.(temp) ++ [char] in
  let quotes_count :=
    if Ascii.eqb char dquote then (st.(quotes_count) + 1)%Z
    else st.(quotes_count) in
  let brackets_count :=
    if Ascii.eqb char dquote then st.(brackets_count)
    else if Ascii.eqb char "[" then (st.(brackets_count) + 1)%Z
    else if Ascii.eqb char "]" then (st.(brackets_count) - 1)%Z
    else st.(brackets_count) in
  if Ascii.eqb char " " && (quotes_count mod 2 =? 0)%Z && (brackets_count =? 0)%Z
  then {| split_package_string := st.(split_package_string) ++ [strip temp];
          temp := [];
          quotes_count := quotes_count;
          brackets_count := brackets_count |}
  else {| split_package_string := st.(split_package_string);
          temp := temp;
          quotes_count := quotes_count;
          brackets_count := brackets_count |}.

Definition _parse_package_string (package_string : str) : list str :=
  let st := fold_left tok_step package_string tok_init in
  match st.(temp) with
  | [] => st.(split_package_string)
  | _ => st.(split_package_string) ++ [strip st.(temp)]
  end.

Definition _determine_update_status (update_status : str) : str :=
  let status : str := [] in
  if contains (lit "N") update_status then status ++ lit "NewPackage"
  else if contains (lit "R") update_status then status ++ lit "ReEmerge"
  else if contains (lit "U") update_status then status ++ lit "Update"
  else status ++ lit "Undefined".

(** The three tests that leave a hyphen-delimited part out of the name. *)
Definition version_part (part : str) : bool :=
  if isnumeric part then true
  else if contains (lit ".") part || contains (lit ":") part then true
  else match part with
       | [c0; c1] => Ascii.eqb c0 "r" && isnumeric [c1]
       | _ => false
       end.

(** The loop that builds [package_name], each kept part followed by a
    hyphen. *)
Definition name_step (package_name part : str) : str :=
  if version_part part then package_name
  else package_name ++ part ++ lit "-".

(** The loop over the tokens that carry an assignment. *)
Definition attr_step (ebuild_info : PackageInfo) (var : str)
  : result PackageInfo :=
  if contains (lit "=" ++ [dquote]) var then
    let splitvar := split (lit "=") var in
    key <- index splitvar 0 ;;
    val <- index splitvar 1 ;;
    Ok (add_attributes ebuild_info
          [(key, VList (split (lit " ") (slice_inner val)))])
  else Ok ebuild_info.

Definition _parse_package_ebuild (split_package_string : list str)
  : result PackageInfo :=
  let package_type := lit "ebuild" in
  status_token <- index split_package_string 0 ;;
  let update_status := _determine_update_status status_token in
  package_base_info <- index split_package_string 1 ;;
  repo <- index (split (lit "::") package_base_info) 1 ;;
  name_newversion <- index (split (lit "::") package_base_info) 0 ;;
  let package_name :=
    fold_left name_step (split (lit "-") name_newversion) [] in
  let new_version := replace package_name [] name_newversion in
  old_token <- index split_package_string 2 ;;
  old_head <- index (split (lit "::") old_token) 0 ;;
  let old_version := slice_from1 old_head in
  let package_name := slice_to_last package_name in
  let ebuild_info :=
    PackageInfo_init package_type package_name (Some new_version)
      (Some old_version) update_status (Some repo) in
  for_each attr_step split_package_string ebuild_info.

Definition _parse_package_blocks (split_package_string : list str)
  : result PackageInfo :=
  let package_type := lit "blocks" in
  name_token <- index split_package_string 1 ;;
  let package_name := slice_from1 name_token in
  update_status <- index split_package_string 0 ;;
  let blocks_info :=
    PackageInfo_init package_type package_name None None update_status None in
  last_token <- index_last split_package_string ;;
  Ok (add_attributes blocks_info
        [(lit "blocked_package", VStr (slice_to_last last_token))]).

Definition _parse_package_uninstall (split_package_string : list str)
  : result PackageInfo :=
  let package_type := lit "uninstall" in
  name_token <- index split_package_string 1 ;;
  let split_package_info := split (lit "::") name_token in
  package_name <- index split_package_info 0 ;;
  repo <- index split_package_info 1 ;;
  update_status <- index split_package_string 0 ;;
  let uninstall_info :=
    PackageInfo_init package_type package_name None None update_status
      (Some repo) in
  Ok (add_attributes uninstall_info
        [(lit "uninstalled_package", VStr package_name)]).

(** [r"\[(.+?)\]"] *)
Definition ebuild_info_pattern : regex :=
  Seq (Chr "[") (Seq (Plus Dot) (Chr "]")).

(** The condition of the list comprehension. *)
Definition is_package_string (line : str) : bool :=
  search ebuild_info_pattern line && negb (str_eqb line (lit "[ ok ]")).

(** The [if]/[elif] chain on the first token; [None] when no branch is
    taken. *)
Definition dispatch (split_package_string : list str)
  : result (option PackageInfo) :=
  update_status <- index split_package_string 0 ;;
  if contains (lit "ebuild") update_status then
    p <- _parse_package_ebuild split_package_string ;; Ok (Some p)
  else if contains (lit "blocks") update_status then
    p <- _parse_package_blocks split_package_string ;; Ok (Some p)
  else if contains (lit "uninstall") update_status then
    p <- _parse_package_uninstall split_package_string ;; Ok (Some p)
  else Ok None.

(** One turn of [for package_string in package_strings]. *)
Definition details_step (packages : list PackageInfo) (package_string : str)
  : result (list PackageInfo) :=
  let split_package_string := _parse_package_string package_string in
  package <- dispatch split_package_string ;;
  match package with
  | Some p => Ok (packages ++ [p])
  | None => Ok packages
  end.

Definition parse_update_details (section_content : list str)
  : result (list PackageInfo) :=
  let package_strings := filter is_package_string section_content in
  for_each details_step package_strings [].

End PackageParser.

Import PackageParser.

Definition scenario_A : str :=
  lit "[ebuild     U  ] sys-devel/gnuconfig-20230731::gentoo [20230121::gentoo] 72 KiB".


(** ** Reference definitions

    What the statements below compare the code with.  None of them is used
    by the embedding above. *)

Module Ref.

Import Re.

(** *** The tokenizer, by positions *)

(** The number of double quotes in a prefix and its bracket depth. *)
Definition quote_count (p : str) : nat := count_occ ascii_dec p dquote.

Definition bracket_depth (p : str) : Z :=
  (Z.of_nat (count_occ ascii_dec p "["%char)
   - Z.of_nat (count_occ ascii_dec p "]"%char))%Z.

(** Position [i] of [line] holds a separator space: a space with an even
    number of quotes and a bracket depth of zero up to it. *)
Definition separator_at (line : str) (i : nat) : bool :=
  match nth_error line i with
  | Some c =>
      Ascii.eqb c " "
      && Nat.even (quote_count (firstn i line))
      && (bracket_depth (firstn i line) =? 0)%Z
  | None => false
  end.

(** [line] cut after every separator space; [i] is the position of the
    head of [rest], [cur] the piece being read.  What is left at the end is
    a piece when it is not empty. *)
Fixpoint cut_from (line : str) (i : nat) (cur rest : str) : list str :=
  match rest with
  | [] => match cur with [] => [] | _ => [cur] end
  | c :: rest' =>
      if separator_at line i
      then (cur ++ [c]) :: cut_from line (S i) [] rest'
      else cut_from line (S i) (cur ++ [c]) rest'
  end.

Definition tokens_by_position (line : str) : list str :=
  map strip (cut_from line 0 [] line).

(** *** The scan state that decides separators

    Whether the number of quotes read is odd, and the bracket depth. *)
Definition scan_state : Type := bool * Z.

Definition scan_step (st : scan_state) (c : ascii) : scan_state :=
  if Ascii.eqb c dquote then (negb (fst st), snd st)
  else if Ascii.eqb c "[" then (fst st, (snd st + 1)%Z)
  else if Ascii.eqb c "]" then (fst st, (snd st - 1)%Z)
  else st.

Definition scan (st : scan_state) (s : str) : scan_state :=
  fold_left scan_step s st.

Definition scan0 : scan_state := (false, 0%Z).

Definition outside (st : scan_state) : bool :=
  negb (fst st) && (snd st =? 0)%Z.

(** Quotes and brackets are balanced when the scan of the whole line ends
    outside every span. *)
Definition balanced (line : str) : bool := outside (scan scan0 line).

Definition emit (cur : str) : list str :=
  match cur with [] => [] | _ => [cur] end.

(** The pieces of a line, cut after every separator space, from a scan
    state. *)
Fixpoint chunks (st : scan_state) (cur s : str) : list str :=
  match s with
  | [] => emit cur
  | c :: s' =>
      let st' := scan_step st c in
      if Ascii.eqb c " " && outside st'
      then (cur ++ [c]) :: chunks st' [] s'
      else chunks st' (cur ++ [c]) s'
  end.

(** No separator space in [s], read from [st]. *)
Fixpoint nosep (st : scan_state) (s : str) : bool :=
  match s with
  | [] => true
  | c :: s' =>
      let st' := scan_step st c in
      negb (Ascii.eqb c " " && outside st') && nosep st' s'
  end.

(** *** Whitespace collapsing

    The words of a line: its maximal pieces free of whitespace that lies
    outside quoted and bracketed spans.  Collapsing a line joins its words
    with single spaces, which turns every run of such whitespace into one
    space and drops the runs at both ends. *)
Fixpoint words (st : scan_state) (cur s : str) : list str :=
  match s with
  | [] => emit cur
  | c :: s' =>
      let st' := scan_step st c in
      if isspace c && outside st'
      then emit cur ++ words st' [] s'
      else words st' (cur ++ [c]) s'
  end.

Definition collapse (line : str) : str :=
  join (lit " ") (words scan0 [] line).

(** *** Lines the builders accept *)

(** The tokens are enough for the builder their first token selects. *)
Definition well_formed_tokens (tokens : list str) : bool :=
  match tokens with
  | [] => false
  | t0 :: rest =>
      if contains (lit "ebuild") t0 then
        match rest with
        | t1 :: _ :: _ => contains (lit "::") t1
        | _ => false
        end
      else if contains (lit "blocks") t0 then
        match rest with _ :: _ => true | [] => false end
      else if contains (lit "uninstall") t0 then
        match rest with t1 :: _ => contains (lit "::") t1 | [] => false end
      else true
  end.

Definition line_ok (line : str) : bool :=
  negb (is_package_string line)
  || well_formed_tokens (_parse_package_string line).

(** *** Lines that yield a record, and the record of one line *)

Definition has_variant (line : str) : bool :=
  match _parse_package_string line with
  | [] => false
  | t0 :: _ =>
      contains (lit "ebuild") t0 || contains (lit "blocks") t0
      || contains (lit "uninstall") t0
  end.

Definition build_record (line : str) : result PackageInfo :=
  let tokens := _parse_package_string line in
  match tokens with
  | [] => Raise IndexError
  | t0 :: _ =>
      if contains (lit "ebuild") t0 then _parse_package_ebuild tokens
      else if contains (lit "blocks") t0 then _parse_package_blocks tokens
      else _parse_package_uninstall tokens
  end.

(** The results of a list of computations, up to the first that raises. *)
Fixpoint sequence {A : Type} (l : list (result A)) : result (list A) :=
  match l with
  | [] => Ok []
  | m :: l' => a <- m ;; r <- sequence l' ;; Ok (a :: r)
  end.

(** A substring [[m]] with [m] non-empty and free of newlines. *)
Definition has_bracketed (line : str) : Prop :=
  exists a m b,
    line = a ++ "["%char :: m ++ "]"%char :: b
    /\ m <> [] /\ ~ In newline m.

(** *** The sections of a log *)

Definition is_marked (line : str) : bool := contains Parser.marker line.

(** The text between the first and the second marker, stripped. *)
Definition payload (line : str) : str :=
  strip (nth 1 (split Parser.marker line) []).

Definition is_header (p : str) : bool := search Parser.section_pattern p.

(** Payloads of the marked lines that are headers, and of those that are
    not, in the order of the log. *)
Definition headers (log : list str) : list str :=
  filter is_header (map payload (filter is_marked log)).

Definition contents (log : list str) : list str :=
  filter (fun p => negb (is_header p)) (map payload (filter is_marked log)).

(** The last line without a marker. *)
Definition last_unmarked (log : list str) : option str :=
  match rev (filter (fun l => negb (is_marked l)) log) with
  | l :: _ => Some l
  | [] => None
  end.

(** All the content lines of a mapping, section after section. *)
Definition section_lines (d : PyDict.dict value) : list str :=
  flat_map (fun kv => match snd kv with VList l => l | VStr _ => [] end) d.

(** What the splitter's loop keeps true once the lines [seen] are read: the
    current section is the last entry that holds lines; the keys are
    ["beginning"], ["final"] and the headers read; the content lines are the
    payloads read so far; ["final"] holds the last unmarked line. *)
Definition split_inv (seen : list str) (st : Parser.split_state) : Prop :=
  let d := Parser.log_by_sections st in
  let name := Parser.section_name st in
  (exists d1 l d2,
      d = d1 ++ (name, VList l) :: d2
      /\ ~ In name (PyDict.keys d1) /\ section_lines d2 = [])
  /\ (forall k, In k (PyDict.keys d) ->
                k = lit "beginning" \/ k = lit "final" \/ In k (headers seen))
  /\ section_lines d = contents seen
  /\ PyDict.get d (lit "final") = option_map VStr (last_unmarked seen)
  /\ (name = lit "beginning" \/ In name (headers seen))
  /\ NoDup (PyDict.keys d).

(** *** Names *)

(** The hyphen-delimited parts of the text before ["::"] in a token. *)
Definition name_parts (token : str) : list str :=
  split (lit "-") (nth 0 (split (lit "::") token) []).

(** Some part is kept for the name, and no kept part is empty. *)
Definition clean_name_parts (token : str) : bool :=
  existsb (fun p => negb (version_part p)) (name_parts token)
  && forallb (fun p => version_part p || negb (str_eqb p []))
       (name_parts token).

Definition good_name (name : str) : Prop :=
  name <> [] /\ hd "a"%char name <> "-"%char /\ last name "a"%char <> "-"%char.

End Ref.

Import Ref.

(** ** The report on the sections ([Parser.parse_sections])

    [print] is modelled by the list of the lines printed.  The file the
    constructor opens is given by the list of its lines, as [readlines]
    returns them. *)

Module ParserReport.

(** [s.split()]: the maximal runs of characters that are not whitespace;
    [cur] is the run being read. *)
Fixpoint split_whitespace_go (cur s : str) : list str :=
  match s with
  | [] => match cur with [] => [] | _ => [cur] end
  | c :: s' =>
      if isspace c
      then match cur with [] => [] | _ => [cur] end ++ split_whitespace_go [] s'
      else split_whitespace_go (cur ++ [c]) s'
  end.

Definition split_whitespace (s : str) : list str := split_whitespace_go [] s.

(** [x in section_content]: membership in a list, the substring test on the
    string kept under ["final"]. *)
Definition value_contains (x : str) (section_content : value) : bool :=
  match section_content with
  | VList l => existsb (str_eqb x) l
  | VStr s => contains x s
  end.

(** [section_content[i]]: an item of the list, a one-character string of
    the string. *)
Definition value_index (section_content : value) (i : nat) : result str :=
  match section_content with
  | VList l => index l i
  | VStr s => c <- index s i ;; Ok [c]
  end.

(** The line it prints. *)
Definition parse_emerge_pretend_section (section_content : value) : list str :=
  let pretend_successful :=
    value_contains (lit "emerge pretend was successful, updating...")
      section_content in
  if pretend_successful
  then [lit "Pretend completed without errors"]
  else [lit "Pretend exited with errors: "].

(** The lines it prints, when it does not raise. *)
Definition parse_update_system_section (section_content : value)
  : result (list str) :=
  second_line <- value_index section_content 1 ;;
  update_type <- index (split_whitespace second_line) 1 ;;
  if str_eqb update_type (lit "@world") then
    if value_contains (lit "update was successful") section_content
    then Ok [lit "Full update was successful"]
    else Ok [lit "Full update was NOT successful"]
  else if str_eqb update_type (lit "GLSA") then
    if value_contains (lit "glsa update was successful") section_content
    then Ok [lit "Security update was successful"]
    else Ok [lit "Security update was NOT successful"]
  else
    Ok [update_type ++ lit " is a wrong update type";
        lit "Correct types: @world and GLSA"].

(** The loop over [self.log_data.keys()]: the lines printed so far and how
    the loop ends. *)
Fixpoint parse_sections_loop (log_data : PyDict.dict value)
         (sections : list str) (printed : list str)
  : list str * result unit :=
  match sections with
  | [] => (printed, Ok tt)
  | section :: sections' =>
      match PyDict.get log_data section with
      | None => (printed, Raise KeyError)
      | Some section_content =>
          if str_eqb section (lit "{{ PRETEND EMERGE }}") then
            parse_sections_loop log_data sections'
              (printed ++ parse_emerge_pretend_section section_content)
          else if str_eqb section (lit "{{ UPDATE SYSTEM }}") then
            match parse_update_system_section section_content with
            | Ok lines =>
                parse_sections_loop log_data sections' (printed ++ lines)
            | Raise e => (printed, Raise e)
            end
          else parse_sections_loop log_data sections' printed
      end
  end.

Definition parse_sections (log_data : PyDict.dict value)
  : list str * result unit :=
  parse_sections_loop log_data (PyDict.keys log_data) [].

(** [read_log], on the lines of the file. *)
Definition read_log (file_lines : list str) : result (PyDict.dict value) :=
  Parser.split_log_to_sections file_lines.

(** [Parser.__init__], on the lines of the file. *)
Definition Parser_init (file_lines : list str) : list str * result unit :=
  match read_log file_lines with
  | Ok log_data => parse_sections log_data
  | Raise e => ([], Raise e)
  end.

End ParserReport.

(** ** More reference definitions *)

Module Ref2.

(** The elements of a list in the order of their first occurrence. *)
Fixpoint first_occurrences (l : list str) : list str :=
  match l with
  | [] => []
  | x :: l' =>
      x :: filter (fun y => negb (str_eqb y x)) (first_occurrences l')
  end.

(** The keys of a mapping other than ["final"]. *)
Definition section_keys (d : PyDict.dict value) : list str :=
  filter (fun k => negb (str_eqb k (lit "final"))) (PyDict.keys d).

(** What the splitter's loop keeps true on every log, once the lines
    [seen] are read: the current section is a key that holds a list and is
    not ["final"]; ["beginning"] is the first key; ["final"] holds the last
    unmarked line; the other keys are ["beginning"] and the headers in the
    order of their first occurrence. *)
Definition split_keeps (seen : list str) (st : Parser.split_state) : Prop :=
  let d := Parser.log_by_sections st in
  let name := Parser.section_name st in
  name <> lit "final"
  /\ (exists l, PyDict.get d name = Some (VList l))
  /\ (exists v d', d = (lit "beginning", v) :: d')
  /\ PyDict.get d (lit "final") = option_map VStr (last_unmarked seen)
  /\ section_keys d = lit "beginning" :: first_occurrences (headers seen).

(** The sections of a log as runs: a header opens a run, named by its
    payload, that holds the payloads of the marked lines up to the next
    header; the run before the first header is named ["beginning"].  [name]
    and [lines] are the run being read. *)
Fixpoint section_runs_from (name : str) (lines : list str) (log : list str)
  : list (str * list str) :=
  match log with
  | [] => [(name, lines)]
  | line :: rest =>
      if is_marked line then
        if is_header (payload line)
        then (name, lines) :: section_runs_from (payload line) [] rest
        else section_runs_from name (lines ++ [payload line]) rest
      else section_runs_from name lines rest
  end.

Definition section_runs (log : list str) : list (str * list str) :=
  section_runs_from (lit "beginning") [] log.

(** Runs as entries of a mapping, and the entries of a mapping other than
    the one of ["final"]. *)
Definition as_sections (runs : list (str * list str)) : PyDict.dict value :=
  map (fun run => (fst run, VList (snd run))) runs.

Definition sections_without_final (d : PyDict.dict value)
  : PyDict.dict value :=
  filter (fun kv => negb (str_eqb (fst kv) (lit "final"))) d.

(** The characters of a string that are not whitespace. *)
Definition visible (s : str) : str := filter (fun c => negb (isspace c)) s.

(** A string that neither starts nor ends with whitespace. *)
Definition trimmed (t : str) : Prop :=
  match t with
  | [] => True
  | c :: _ => isspace c = false /\ isspace (last t c) = false
  end.

(** What a record looks like, kind by kind. *)
Definition record_shape (p : PackageInfo) : Prop :=
  (package_type p = lit "ebuild"
   /\ In (update_status p)
        [lit "NewPackage"; lit "ReEmerge"; lit "Update"; lit "Undefined"]
   /\ new_version p <> None /\ old_version p <> None /\ repo p <> None)
  \/ (package_type p = lit "blocks"
      /\ new_version p = None /\ old_version p = None /\ repo p = None
      /\ exists blocked,
          attributes p = [(lit "blocked_package", VStr blocked)])
  \/ (package_type p = lit "uninstall"
      /\ new_version p = None /\ old_version p = None /\ repo p <> None
      /\ attributes p = [(lit "uninstalled_package", VStr (package_name p))]).

(** The kind the first token selects, the first test that holds deciding. *)
Definition variant_of (first_token : str) : option str :=
  if contains (lit "ebuild") first_token then Some (lit "ebuild")
  else if contains (lit "blocks") first_token then Some (lit "blocks")
  else if contains (lit "uninstall") first_token then Some (lit "uninstall")
  else None.

End Ref2.

Import ParserReport Ref2.

(** * Properties *)

(** ** Strings *)

Lemma str_eqb_eq (a b : str) : str_eqb a b = true <-> a = b.
Proof.
  unfold str_eqb. destruct (list_eq_dec ascii_dec a b); split; congruence.
Qed.

Lemma str_eqb_refl (a : str) : str_eqb a a = true.
Proof. now apply str_eqb_eq. Qed.

Lemma str_eqb_neq (a b : str) : str_eqb a b = false <-> a <> b.
Proof.
  unfold str_eqb. destruct (list_eq_dec ascii_dec a b); split; congruence.
Qed.

Lemma prefixb_spec (p s : str) :
  prefixb p s = true <-> exists t, s = p ++ t.
Proof.
  revert s. induction p as [|a p IH]; intros s; simpl.
  - split; [intros _; now exists s | reflexivity].
  - destruct s as [|b s].
    + split; [discriminate | intros [t Ht]; discriminate].
    + rewrite andb_true_iff, Ascii.eqb_eq, IH. split.
      * intros [-> [t ->]]. now exists t.
      * intros [t Ht]. injection Ht as -> ->. split; [reflexivity | now exists t].
Qed.

Lemma contains_spec (sub s : str) :
  contains sub s = true <-> exists a b, s = a ++ sub ++ b.
Proof.
  induction s as [|c s IH]; simpl.
  - rewrite prefixb_spec. split.
    + intros [t Ht]. exists [], t. exact Ht.
    + intros [a [b H]]. destruct a; [now exists b | discriminate].
  - rewrite orb_true_iff, prefixb_spec, IH. split.
    + intros [[t Ht] | [a [b Hab]]].
      * exists [], t. exact Ht.
      * exists (c :: a), b. simpl. now rewrite Hab.
    + intros [a [b H]]. destruct a as [|x a].
      * left. now exists b.
      * right. injection H as _ H. now exists a, b.
Qed.

Lemma contains_char (c : ascii) (s : str) :
  contains [c] s = existsb (Ascii.eqb c) s.
Proof.
  induction s as [|b s IH]; simpl; [reflexivity|].
  rewrite IH. now rewrite andb_true_r.
Qed.

Lemma contains_app_l (a b s : str) :
  contains (a ++ b) s = true -> contains a s = true.
Proof.
  rewrite !contains_spec. intros [x [y H]].
  exists x, (b ++ y). now rewrite H, <- app_assoc.
Qed.

Lemma split_go_nonempty (sep : str) (k : nat) (cur s : str) :
  split_go sep k cur s <> [].
Proof.
  revert k cur. induction s as [|c s IH]; intros k cur; simpl.
  - discriminate.
  - destruct k; [|apply IH].
    destruct (prefixb sep (c :: s)); [discriminate | apply IH].
Qed.

Lemma split_go_length2 (sep : str) (cur s : str) :
  sep <> [] ->
  (2 <=? length (split_go sep 0 cur s)) = contains sep s.
Proof.
  intros Hsep. revert cur. induction s as [|c s IH]; intros cur.
  - destruct sep; [contradiction | reflexivity].
  - cbn [split_go contains]. destruct (prefixb sep (c :: s)) eqn:Hp.
    + pose proof (split_go_nonempty sep (length sep - 1) [] s) as Hne.
      destruct (split_go sep (length sep - 1) [] s); [contradiction | reflexivity].
    + apply IH.
Qed.

Lemma split_length2 (sep s : str) :
  sep <> [] -> (2 <=? length (split sep s)) = contains sep s.
Proof. intros H. now apply split_go_length2. Qed.

Lemma index_in_range {A : Type} (l : list A) (i : nat) :
  i < length l -> exists a, index l i = Ok a.
Proof.
  intros H. unfold index. destruct (nth_error l i) eqn:E.
  - now exists a.
  - apply nth_error_None in E. lia.
Qed.

Lemma index_out_of_range {A : Type} (l : list A) (i : nat) :
  length l <= i -> index l i = Raise IndexError.
Proof.
  intros H. unfold index. apply nth_error_None in H. now rewrite H.
Qed.

Lemma index_nth {A : Type} (l : list A) (i : nat) (a d : A) :
  index l i = Ok a -> nth i l d = a.
Proof.
  unfold index. destruct (nth_error l i) eqn:E; [|discriminate].
  intros [= <-]. now apply nth_error_nth.
Qed.

Lemma index_split_0 (sep s : str) : exists a, index (split sep s) 0 = Ok a.
Proof.
  unfold split. pose proof (split_go_nonempty sep 0 [] s) as H.
  destruct (split_go sep 0 [] s) as [|a l]; [contradiction | now exists a].
Qed.

Lemma index_split_1 (sep s : str) :
  sep <> [] ->
  if contains sep s then exists a, index (split sep s) 1 = Ok a
  else index (split sep s) 1 = Raise IndexError.
Proof.
  intros Hsep. rewrite <- (split_length2 sep s Hsep).
  destruct (2 <=? length (split sep s)) eqn:E.
  - apply Nat.leb_le in E. apply index_in_range. lia.
  - apply Nat.leb_gt in E. apply index_out_of_range. lia.
Qed.

(** ** The builders raise on short token lists only *)

Lemma attr_step_total (p : PackageInfo) (var : str) :
  exists p', attr_step p var = Ok p'.
Proof.
  unfold attr_step. destruct (contains _ var) eqn:E; [|now exists p].
  apply contains_app_l in E.
  destruct (index_split_0 (lit "=") var) as [k ->].
  pose proof (index_split_1 (lit "=") var ltac:(discriminate)) as H1.
  rewrite E in H1. destruct H1 as [v ->]. cbn [bind]. eauto.
Qed.

Lemma attr_loop_total (l : list str) (p : PackageInfo) :
  exists p', for_each attr_step l p = Ok p'.
Proof.
  revert p. induction l as [|var l IH]; intros p; simpl; [eauto|].
  destruct (attr_step_total p var) as [p' ->]. cbn [bind]. apply IH.
Qed.

Lemma ebuild_raises (tokens : list str) :
  match tokens with
  | _ :: t1 :: _ :: _ =>
      if contains (lit "::") t1
      then exists p, _parse_package_ebuild tokens = Ok p
      else _parse_package_ebuild tokens = Raise IndexError
  | _ => _parse_package_ebuild tokens = Raise IndexError
  end.
Proof.
  destruct tokens as [|t0 [|t1 [|t2 rest]]]; try reflexivity.
  - unfold _parse_package_ebuild. cbn [index nth_error bind].
    pose proof (index_split_1 (lit "::") t1 ltac:(discriminate)) as H1.
    destruct (contains (lit "::") t1).
    + destruct H1 as [r ->]. destruct (index_split_0 (lit "::") t1) as [n ->].
      reflexivity.
    + now rewrite H1.
  - unfold _parse_package_ebuild. cbn [index nth_error bind].
    pose proof (index_split_1 (lit "::") t1 ltac:(discriminate)) as H1.
    destruct (contains (lit "::") t1).
    + destruct H1 as [r ->]. destruct (index_split_0 (lit "::") t1) as [n ->].
      destruct (index_split_0 (lit "::") t2) as [o ->].
      cbn [bind]. apply attr_loop_total.
    + now rewrite H1.
Qed.

Lemma blocks_raises (tokens : list str) :
  match tokens with
  | _ :: _ :: _ => exists p, _parse_package_blocks tokens = Ok p
  | _ => _parse_package_blocks tokens = Raise IndexError
  end.
Proof.
  destruct tokens as [|t0 [|t1 rest]]; try reflexivity.
  unfold _parse_package_blocks, index_last. cbn [index nth_error bind].
  destruct (rev (t0 :: t1 :: rest)) eqn:E.
  - apply (f_equal (@length str)) in E. rewrite length_rev in E. discriminate.
  - cbn [bind]. eauto.
Qed.

Lemma uninstall_raises (tokens : list str) :
  match tokens with
  | _ :: t1 :: _ =>
      if contains (lit "::") t1
      then exists p, _parse_package_uninstall tokens = Ok p
      else _parse_package_uninstall tokens = Raise IndexError
  | _ => _parse_package_uninstall tokens = Raise IndexError
  end.
Proof.
  destruct tokens as [|t0 [|t1 rest]]; try reflexivity.
  unfold _parse_package_uninstall. cbn [index nth_error bind].
  pose proof (index_split_1 (lit "::") t1 ltac:(discriminate)) as H1.
  destruct (index_split_0 (lit "::") t1) as [n ->]. cbn [bind].
  destruct (contains (lit "::") t1).
  - destruct H1 as [r ->]. cbn [bind]. eauto.
  - now rewrite H1.
Qed.

Lemma dispatch_raises (tokens : list str) :
  if well_formed_tokens tokens
  then exists o, dispatch tokens = Ok o
  else dispatch tokens = Raise IndexError.
Proof.
  destruct tokens as [|t0 rest]; [reflexivity|].
  unfold dispatch, well_formed_tokens. cbn [index nth_error bind].
  destruct (contains (lit "ebuild") t0).
  { pose proof (ebuild_raises (t0 :: rest)) as H.
    destruct rest as [|t1 [|t2 rest]]; try (now rewrite H).
    destruct (contains (lit "::") t1); [|now rewrite H].
    destruct H as [p ->]. cbn [bind]. eauto. }
  destruct (contains (lit "blocks") t0).
  { pose proof (blocks_raises (t0 :: rest)) as H.
    destruct rest as [|t1 rest]; [now rewrite H|].
    destruct H as [p ->]. cbn [bind]. eauto. }
  destruct (contains (lit "uninstall") t0).
  { pose proof (uninstall_raises (t0 :: rest)) as H.
    destruct rest as [|t1 rest]; [now rewrite H|].
    destruct (contains (lit "::") t1); [|now rewrite H].
    destruct H as [p ->]. cbn [bind]. eauto. }
  eauto.
Qed.

Lemma details_loop_raises (lines : list str) (packages : list PackageInfo) :
  if forallb line_ok lines
  then exists recs,
      for_each details_step (filter is_package_string lines) packages = Ok recs
  else for_each details_step (filter is_package_string lines) packages
       = Raise IndexError.
Proof.
  revert packages. induction lines as [|line lines IH]; intros packages.
  - simpl. eauto.
  - cbn [forallb filter]. unfold line_ok at 1.
    destruct (is_package_string line) eqn:Hsel; cbn [negb orb andb].
    + cbn [for_each]. unfold details_step at 1 3.
      pose proof (dispatch_raises (_parse_package_string line)) as Hd.
      destruct (well_formed_tokens (_parse_package_string line)); cbn [andb].
      * destruct Hd as [o ->]. cbn [bind]. destruct o; cbn [bind]; apply IH.
      * rewrite Hd. cbn [bind]. now destruct (forallb line_ok lines).
    + apply IH.
Qed.

(** ** The tokenizer and its scan state *)

Lemma mod2_odd (q : Z) : (q mod 2 =? 0)%Z = negb (Z.odd q).
Proof. rewrite Zmod_odd. now destruct (Z.odd q). Qed.

Lemma odd_plus_one (q : Z) : Z.odd (q + 1) = negb (Z.odd q).
Proof. now rewrite Z.add_1_r, Z.odd_succ, Z.negb_odd. Qed.

Lemma tok_step_scan (st : tok_state) (c : ascii) :
  let ab := scan_step (Z.odd (quotes_count st), brackets_count st) c in
  let st' := tok_step st c in
  (Z.odd (quotes_count st'), brackets_count st') = ab
  /\ (if Ascii.eqb c " " && outside ab
      then split_package_string st'
           = split_package_string st ++ [strip (temp st ++ [c])]
           /\ temp st' = []
      else split_package_string st' = split_package_string st
           /\ temp st' = temp st ++ [c]).
Proof.
  destruct st as [acc tmp q b].
  unfold tok_step, scan_step, outside.
  cbn [fst snd split_package_string temp quotes_count brackets_count].
  destruct (Ascii.eqb c dquote); [| destruct (Ascii.eqb c "[");
    [| destruct (Ascii.eqb c "]")]];
    rewrite ?mod2_odd, ?odd_plus_one;
    cbn [fst snd]; destruct (Ascii.eqb c " "); destruct (Z.odd q) eqn:Hq;
    cbn [negb andb];
    try (match goal with |- context [(?z =? 0)%Z] => destruct (z =? 0)%Z end);
    cbn [split_package_string temp quotes_count brackets_count];
    rewrite ?odd_plus_one, ?Hq; auto.
Qed.

Lemma tok_fold_chunks (s : str) (st : tok_state) :
  let st' := fold_left tok_step s st in
  match temp st' with
  | [] => split_package_string st'
  | _ => split_package_string st' ++ [strip (temp st')]
  end
  = split_package_string st
    ++ map strip
         (chunks (Z.odd (quotes_count st), brackets_count st) (temp st) s).
Proof.
  revert st. induction s as [|c s IH]; intros st.
  - cbn. destruct (temp st); cbn; [now rewrite app_nil_r | reflexivity].
  - cbn [fold_left chunks]. cbv zeta. rewrite (IH (tok_step st c)).
    destruct (tok_step_scan st c) as [Hab Hc]. cbv zeta in Hab, Hc.
    rewrite Hab.
    destruct (Ascii.eqb c " " && outside _); destruct Hc as [-> ->].
    + cbn [map]. now rewrite <- app_assoc.
    + reflexivity.
Qed.

Lemma tokens_chunks (s : str) :
  _parse_package_string s = map strip (chunks scan0 [] s).
Proof.
  unfold _parse_package_string. cbv zeta.
  now rewrite (tok_fold_chunks s tok_init).
Qed.

Lemma scan_app (st : scan_state) (a b : str) :
  scan st (a ++ b) = scan (scan st a) b.
Proof. apply fold_left_app. Qed.

Lemma scan_step_counts (o : bool) (d : Z) (c : ascii) :
  scan_step (o, d) c
  = (xorb o (Nat.odd (quote_count [c])), (d + bracket_depth [c])%Z).
Proof.
  unfold scan_step, quote_count, bracket_depth. cbn [fst snd count_occ].
  destruct (Ascii.eqb_spec c dquote) as [->|Hq].
  { cbn. now rewrite xorb_true_r, Z.add_0_r. }
  destruct (ascii_dec c dquote) as [E|_]; [contradiction|].
  destruct (Ascii.eqb_spec c "[") as [->|Hb].
  { cbn. now rewrite xorb_false_r. }
  destruct (ascii_dec c "[") as [E|_]; [contradiction|].
  destruct (Ascii.eqb_spec c "]") as [->|Hc].
  { cbn. now rewrite xorb_false_r. }
  destruct (ascii_dec c "]") as [E|_]; [contradiction|].
  cbn. now rewrite xorb_false_r, Z.add_0_r.
Qed.

Lemma quote_count_app (a b : str) :
  quote_count (a ++ b) = quote_count a + quote_count b.
Proof. apply count_occ_app. Qed.

Lemma bracket_depth_app (a b : str) :
  bracket_depth (a ++ b) = (bracket_depth a + bracket_depth b)%Z.
Proof. unfold bracket_depth. rewrite !count_occ_app. lia. Qed.

Lemma odd_add_xorb (n m : nat) :
  Nat.odd (n + m) = xorb (Nat.odd n) (Nat.odd m).
Proof. apply Nat.odd_add. Qed.

Lemma scan_counts (p : str) (st : scan_state) :
  scan st p
  = (xorb (fst st) (Nat.odd (quote_count p)), (snd st + bracket_depth p)%Z).
Proof.
  revert st. induction p as [|c p IH]; intros [o d].
  - cbn. now rewrite xorb_false_r, Z.add_0_r.
  - change (c :: p) with ([c] ++ p) at 2 3.
    cbn [scan fold_left]. fold (scan (scan_step (o, d) c) p).
    rewrite IH, scan_step_counts. cbn [fst snd].
    rewrite quote_count_app, bracket_depth_app, odd_add_xorb, xorb_assoc.
    f_equal. lia.
Qed.

Lemma scan0_counts (p : str) :
  scan scan0 p = (Nat.odd (quote_count p), bracket_depth p).
Proof. rewrite scan_counts. reflexivity. Qed.

Lemma scan_step_space (st : scan_state) : scan_step st " " = st.
Proof. reflexivity. Qed.

Lemma separator_at_scan (p r : str) (c : ascii) :
  separator_at (p ++ c :: r) (length p)
  = Ascii.eqb c " " && outside (scan_step (scan scan0 p) c).
Proof.
  unfold separator_at.
  rewrite nth_error_app2, Nat.sub_diag by lia. cbn [nth_error].
  rewrite firstn_app, Nat.sub_diag, firstn_all, firstn_O, app_nil_r.
  destruct (Ascii.eqb_spec c " ") as [->|_]; [|reflexivity].
  rewrite scan_step_space, scan0_counts. unfold outside. cbn [fst snd andb].
  now rewrite Nat.negb_odd.
Qed.

Lemma chunks_cut_from (r p cur : str) :
  chunks (scan scan0 p) cur r = cut_from (p ++ r) (length p) cur r.
Proof.
  revert p cur. induction r as [|c r IH]; intros p cur; [reflexivity|].
  cbn [chunks cut_from]. cbv zeta. rewrite separator_at_scan.
  assert (Hp : p ++ c :: r = (p ++ [c]) ++ r) by now rewrite <- app_assoc.
  assert (Hl : S (length p) = length (p ++ [c]))
    by (rewrite length_app; simpl; lia).
  assert (Hs : scan_step (scan scan0 p) c = scan scan0 (p ++ [c]))
    by now rewrite scan_app.
  rewrite Hp, Hl, Hs.
  destruct (Ascii.eqb c " " && outside _); now rewrite IH.
Qed.

(** C5.  The tokens [_parse_package_string] returns are the pieces of the
    line cut after each space that has an even number of double quotes and a
    bracket depth of zero up to it, every other space staying in its piece;
    what is left after the last such space is a piece when it is not empty;
    each piece is stripped. *)
Theorem parse_package_string_separators (line : str) :
  _parse_package_string line = tokens_by_position line.
Proof.
  rewrite tokens_chunks. unfold tokens_by_position. f_equal.
  exact (chunks_cut_from line [] []).
Qed.

(** ** Separator spaces cut the line into independent parts *)

Lemma outside_scan0 (st : scan_state) : outside st = true -> st = scan0.
Proof.
  destruct st as [o d]. unfold outside, scan0. cbn [fst snd].
  rewrite andb_true_iff, negb_true_iff, Z.eqb_eq. now intros [-> ->].
Qed.

Lemma chunks_app_sep (a : str) (st : scan_state) (cur b : str) :
  outside (scan st a) = true ->
  chunks st cur (a ++ " "%char :: b)
  = chunks st cur (a ++ [" "%char]) ++ chunks scan0 [] b.
Proof.
  revert st cur. induction a as [|x a IH]; intros st cur Hout.
  - cbn in Hout. cbn [app chunks]. cbv zeta. rewrite scan_step_space.
    rewrite Hout. apply outside_scan0 in Hout. now subst st.
  - cbn [app chunks]. cbv zeta. cbn [scan fold_left] in Hout.
    destruct (Ascii.eqb x " " && outside (scan_step st x)).
    + cbn [app]. f_equal. now apply IH.
    + now apply IH.
Qed.

Lemma firstn_length_app {A : Type} (a b : list A) :
  firstn (length a) (a ++ b) = a.
Proof. now rewrite firstn_app, Nat.sub_diag, firstn_all, firstn_O, app_nil_r. Qed.

Lemma skipn_length_app {A : Type} (a b : list A) :
  skipn (length a) (a ++ b) = b.
Proof. now rewrite skipn_app, Nat.sub_diag, skipn_all. Qed.

Lemma separator_at_split (line : str) (i : nat) :
  separator_at line i = true ->
  line = firstn i line ++ " "%char :: skipn (S i) line
  /\ length (firstn i line) = i
  /\ outside (scan scan0 (firstn i line)) = true.
Proof.
  intros H. pose proof H as H0. unfold separator_at in H0.
  destruct (nth_error line i) as [c|] eqn:E; [|discriminate].
  destruct (nth_error_split line i E) as [l1 [l2 [Hl Hlen]]].
  subst i. rewrite Hl in H. rewrite separator_at_scan in H.
  apply andb_true_iff in H. destruct H as [Hc Hout].
  apply Ascii.eqb_eq in Hc. subst c. rewrite scan_step_space in Hout.
  rewrite Hl, firstn_length_app.
  change (S (length l1)) with (1 + length l1).
  rewrite <- skipn_skipn, skipn_length_app. cbn [skipn]. auto.
Qed.

Lemma chunks_at_boundary (pre s : str) :
  pre = [] \/ (exists p, pre = p ++ [" "%char] /\ outside (scan scan0 p) = true) ->
  chunks scan0 [] (pre ++ s) = chunks scan0 [] pre ++ chunks scan0 [] s.
Proof.
  intros [-> | [p [-> Hout]]]; [reflexivity|].
  rewrite <- app_assoc. cbn [app]. now apply chunks_app_sep.
Qed.

Lemma strip_space : strip [" "%char] = [].
Proof. reflexivity. Qed.

(** C10.  A separator space that opens the line, or that directly follows
    another separator space, yields an empty token at its place: the tokens
    of the line are those of the text before it, an empty string, and those
    of the text after it. *)
Theorem empty_token_per_extra_separator (line : str) (i : nat) :
  separator_at line i = true ->
  i = 0 \/ separator_at line (i - 1) = true ->
  _parse_package_string line
  = _parse_package_string (firstn i line)
    ++ [] :: _parse_package_string (skipn (S i) line).
Proof.
  intros Hi Hprev.
  destruct (separator_at_split line i Hi) as [Hline [Hlen Hout]].
  set (pre := firstn i line) in *. set (post := skipn (S i) line) in *.
  assert (Hb : pre = [] \/ (exists p, pre = p ++ [" "%char]
                            /\ outside (scan scan0 p) = true)).
  { destruct i as [|j]; [left; now destruct pre|].
    destruct Hprev as [Hprev|Hprev]; [discriminate|].
    cbn [Nat.sub] in Hprev. rewrite Nat.sub_0_r in Hprev.
    destruct (separator_at_split line j Hprev) as [Hline' [Hlen' Hout']].
    right. exists (firstn j line). split; [|exact Hout'].
    unfold pre. rewrite Hline' at 1.
    rewrite <- Hlen' at 1.
    change (firstn j line ++ " "%char :: skipn (S j) line)
      with (firstn j line ++ [" "%char] ++ skipn (S j) line).
    rewrite app_assoc.
    replace (S (length (firstn j line)))
      with (length (firstn j line ++ [" "%char]))
      by (rewrite length_app; simpl; lia).
    apply firstn_length_app. }
  rewrite !tokens_chunks. rewrite Hline at 1.
  rewrite (chunks_at_boundary pre _ Hb).
  cbn [chunks]. cbv zeta. rewrite scan_step_space. cbn [andb Ascii.eqb outside].
  rewrite map_app. reflexivity.
Qed.

Lemma empty_token_per_extra_separator_witness :
  _parse_package_string (lit "a  b") = [lit "a"; []; lit "b"].
Proof.
  exact (empty_token_per_extra_separator (lit "a  b") 2
           eq_refl (or_intror eq_refl)).
Defined.

(** ** Whitespace and [strip] *)

Lemma isspace_scan_step (st : scan_state) (c : ascii) :
  isspace c = true -> scan_step st c = st.
Proof.
  intros H. unfold scan_step.
  destruct (Ascii.eqb_spec c dquote) as [->|_]; [discriminate|].
  destruct (Ascii.eqb_spec c "[") as [->|_]; [discriminate|].
  destruct (Ascii.eqb_spec c "]") as [->|_]; [discriminate|].
  reflexivity.
Qed.

Lemma scan_whitespace (st : scan_state) (ws : str) :
  forallb isspace ws = true -> scan st ws = st.
Proof.
  induction ws as [|c ws IH]; [reflexivity|].
  cbn [forallb]. rewrite andb_true_iff. intros [Hc Hws].
  cbn [scan fold_left]. rewrite (isspace_scan_step st c Hc). now apply IH.
Qed.

Lemma lstrip_decomp (s : str) :
  exists lead, s = lead ++ lstrip s /\ forallb isspace lead = true.
Proof.
  induction s as [|c s [lead [IH Hl]]].
  - now exists [].
  - cbn [lstrip]. destruct (isspace c) eqn:E.
    + exists (c :: lead). cbn. rewrite E, Hl. now rewrite <- IH.
    + now exists [].
Qed.

Lemma rstrip_decomp (s : str) :
  exists trail, s = rstrip s ++ trail /\ forallb isspace trail = true.
Proof.
  induction s as [|c s [trail [IH Ht]]].
  - now exists [].
  - cbn [rstrip]. destruct (rstrip s) as [|d r] eqn:E.
    + destruct (isspace c) eqn:Ec.
      * exists (c :: trail). cbn [app forallb]. rewrite Ec, Ht.
        cbn in IH. now subst trail.
      * exists trail. cbn in IH. subst trail. now split.
    + exists trail. split; [|exact Ht]. cbn [app]. f_equal. exact IH.
Qed.

Lemma strip_decomp (s : str) :
  exists lead trail,
    s = lead ++ strip s ++ trail
    /\ forallb isspace lead = true /\ forallb isspace trail = true.
Proof.
  destruct (lstrip_decomp s) as [lead [Hl Hlw]].
  destruct (rstrip_decomp (lstrip s)) as [trail [Ht Htw]].
  exists lead, trail. unfold strip. now rewrite <- Ht.
Qed.

Lemma scan_strip (st : scan_state) (s : str) : scan st (strip s) = scan st s.
Proof.
  destruct (strip_decomp s) as [lead [trail [Hs [Hl Ht]]]].
  rewrite Hs at 2. rewrite !scan_app.
  rewrite (scan_whitespace st lead Hl).
  now rewrite (scan_whitespace _ trail Ht).
Qed.

Lemma rstrip_app_space (x : str) (w : ascii) :
  isspace w = true -> rstrip (x ++ [w]) = rstrip x.
Proof.
  intros Hw. induction x as [|c x IH].
  - cbn. now rewrite Hw.
  - cbn [app rstrip]. now rewrite IH.
Qed.

Lemma strip_app_space (b : str) (w : ascii) :
  isspace w = true -> strip (b ++ [w]) = strip b.
Proof.
  intros Hw. unfold strip. induction b as [|c b IH].
  - cbn. now rewrite Hw.
  - cbn [app lstrip]. destruct (isspace c); [exact IH|].
    exact (rstrip_app_space (c :: b) w Hw).
Qed.

Lemma rstrip_idem (x : str) : rstrip (rstrip x) = rstrip x.
Proof.
  induction x as [|c x IH]; [reflexivity|].
  cbn [rstrip]. destruct (rstrip x) as [|d r] eqn:E.
  - destruct (isspace c) eqn:Ec; [reflexivity|]. cbn. now rewrite Ec.
  - cbn [rstrip]. cbn [rstrip] in IH. rewrite IH. reflexivity.
Qed.

Lemma lstrip_head (s : str) :
  match lstrip s with [] => True | c :: _ => isspace c = false end.
Proof.
  induction s as [|c s IH]; [exact I|].
  cbn [lstrip]. destruct (isspace c) eqn:E; [exact IH | exact E].
Qed.

Lemma rstrip_head (c : ascii) (x : str) :
  isspace c = false -> exists r, rstrip (c :: x) = c :: r.
Proof.
  intros Hc. cbn [rstrip]. destruct (rstrip x) as [|d r].
  - rewrite Hc. now exists [].
  - now exists (d :: r).
Qed.

Lemma strip_idem (s : str) : strip (strip s) = strip s.
Proof.
  unfold strip. pose proof (lstrip_head s) as H.
  destruct (lstrip s) as [|c x]; [reflexivity|].
  destruct (rstrip_head c x H) as [r Hr]. rewrite Hr.
  cbn [lstrip]. rewrite H. rewrite <- Hr. apply rstrip_idem.
Qed.

(** ** Words of a line *)

Lemma words_space_end (a : str) (st : scan_state) (cur : str) (c : ascii)
      (b : str) :
  outside (scan st a) = true -> isspace c = true ->
  words st cur (a ++ c :: b) = words st cur a ++ words scan0 [] b.
Proof.
  revert st cur. induction a as [|x a IH]; intros st cur Hout Hc.
  - cbn in Hout. cbn [app words]. cbv zeta.
    rewrite (isspace_scan_step st c Hc), Hc, Hout.
    apply outside_scan0 in Hout. now subst st.
  - cbn [app words]. cbv zeta. cbn [scan fold_left] in Hout.
    destruct (isspace x && outside (scan_step st x)).
    + rewrite <- app_assoc. f_equal. now apply IH.
    + now apply IH.
Qed.

Lemma words_lead (lead s : str) :
  forallb isspace lead = true ->
  words scan0 [] (lead ++ s) = words scan0 [] s.
Proof.
  induction lead as [|c lead IH]; [reflexivity|].
  cbn [forallb]. rewrite andb_true_iff. intros [Hc Hl].
  cbn [app words]. cbv zeta.
  rewrite (isspace_scan_step scan0 c Hc), Hc. cbn. now apply IH.
Qed.

Lemma words_whitespace (ws : str) :
  forallb isspace ws = true -> words scan0 [] ws = [].
Proof.
  intros H. rewrite <- (app_nil_r ws). now rewrite words_lead.
Qed.

Lemma words_trail (t trail : str) (st : scan_state) (cur : str) :
  outside (scan st t) = true -> forallb isspace trail = true ->
  words st cur (t ++ trail) = words st cur t.
Proof.
  intros Hout Ht. destruct trail as [|c trail].
  - now rewrite app_nil_r.
  - cbn [forallb] in Ht. apply andb_true_iff in Ht. destruct Ht as [Hc Ht].
    rewrite (words_space_end t st cur c trail Hout Hc).
    now rewrite (words_whitespace trail Ht), app_nil_r.
Qed.

Lemma words_strip (s : str) :
  outside (scan scan0 s) = true ->
  words scan0 [] (strip s) = words scan0 [] s.
Proof.
  intros Hout. destruct (strip_decomp s) as [lead [trail [Hs [Hl Ht]]]].
  rewrite Hs at 2. rewrite (words_lead lead _ Hl).
  rewrite words_trail; [reflexivity | | exact Ht].
  now rewrite scan_strip.
Qed.

Lemma words_join_cons (t : str) (ts : list str) :
  scan scan0 t = scan0 ->
  words scan0 [] (join (lit " ") (t :: ts))
  = words scan0 [] t ++ words scan0 [] (join (lit " ") ts).
Proof.
  intros Ht. destruct ts as [|u ts].
  - cbn. now rewrite app_nil_r.
  - change (join (lit " ") (t :: u :: ts))
      with (t ++ " "%char :: join (lit " ") (u :: ts)).
    apply words_space_end; [now rewrite Ht | reflexivity].
Qed.

Lemma words_join_tokens (s : str) (st : scan_state) (cur : str) :
  scan scan0 cur = st -> outside (scan st s) = true ->
  words scan0 [] (join (lit " ") (map strip (chunks st cur s)))
  = words scan0 [] (cur ++ s).
Proof.
  revert st cur. induction s as [|c s IH]; intros st cur Hcur Hout.
  - cbn in Hout. rewrite app_nil_r. subst st.
    destruct cur as [|x cur]; [reflexivity|].
    cbn [chunks emit map join]. now apply words_strip.
  - cbn [chunks]. cbv zeta. cbn [scan fold_left] in Hout.
    destruct (Ascii.eqb c " " && outside (scan_step st c)) eqn:Hsep.
    + apply andb_true_iff in Hsep. destruct Hsep as [Hc Hst].
      apply Ascii.eqb_eq in Hc. subst c. rewrite scan_step_space in Hst, Hout.
      pose proof (outside_scan0 st Hst) as E. rewrite scan_step_space.
      cbn [map]. rewrite words_join_cons.
      * rewrite (IH st [] (eq_sym E) Hout). cbn [app].
        rewrite words_strip.
        -- rewrite (words_space_end cur scan0 [] " " []);
             [| now rewrite Hcur | reflexivity].
           rewrite (words_space_end cur scan0 [] " " s);
             [| now rewrite Hcur | reflexivity].
           cbn [words emit]. now rewrite app_nil_r.
        -- rewrite scan_app, Hcur. cbn. exact Hst.
      * rewrite scan_strip, scan_app, Hcur. cbn. exact E.
    + rewrite (IH (scan_step st c) (cur ++ [c])).
      * now rewrite <- app_assoc.
      * rewrite scan_app, Hcur. reflexivity.
      * exact Hout.
Qed.

(** ** Lines that make one token *)

Lemma chunks_nil (s : str) (st : scan_state) (cur : str) :
  chunks st cur s = [] -> cur = [] /\ s = [].
Proof.
  revert st cur. induction s as [|c s IH]; intros st cur H.
  - destruct cur; [auto | discriminate].
  - cbn [chunks] in H. cbv zeta in H.
    destruct (Ascii.eqb c " " && outside (scan_step st c)); [discriminate|].
    apply IH in H. destruct H as [H _]. now destruct cur.
Qed.

Lemma chunks_single (s : str) (st : scan_state) (cur c : str) :
  chunks st cur s = [c] ->
  c = cur ++ s
  /\ (nosep st s = true
      \/ exists b, s = b ++ [" "%char] /\ nosep st b = true).
Proof.
  revert st cur. induction s as [|x s IH]; intros st cur H.
  - destruct cur; [discriminate|]. cbn in H. injection H as <-.
    rewrite app_nil_r. auto.
  - cbn [chunks] in H. cbv zeta in H. cbn [nosep]. cbv zeta.
    destruct (Ascii.eqb x " " && outside (scan_step st x)) eqn:Hsep.
    + injection H as <- H. apply chunks_nil in H. destruct H as [_ ->].
      split; [reflexivity|]. right. exists [].
      apply andb_true_iff in Hsep. destruct Hsep as [Hx _].
      apply Ascii.eqb_eq in Hx. now subst x.
    + apply IH in H. destruct H as [-> H]. rewrite <- app_assoc.
      split; [reflexivity|]. cbn [negb andb].
      destruct H as [H | [b [-> Hb]]]; [now left|].
      right. exists (x :: b). cbn [app nosep]. cbv zeta.
      now rewrite Hsep, Hb.
Qed.

Lemma chunks_nosep (s : str) (st : scan_state) (cur : str) :
  nosep st s = true -> chunks st cur s = emit (cur ++ s).
Proof.
  revert st cur. induction s as [|x s IH]; intros st cur H.
  - now rewrite app_nil_r.
  - cbn [nosep] in H. cbv zeta in H. apply andb_true_iff in H.
    destruct H as [Hx Hs]. apply negb_true_iff in Hx.
    cbn [chunks]. cbv zeta. rewrite Hx, (IH _ _ Hs). now rewrite <- app_assoc.
Qed.

Lemma nosep_app (a b : str) (st : scan_state) :
  nosep st (a ++ b) = nosep st a && nosep (scan st a) b.
Proof.
  revert st. induction a as [|x a IH]; intros st; [reflexivity|].
  cbn [app nosep scan fold_left]. cbv zeta. rewrite IH.
  now rewrite andb_assoc.
Qed.

Lemma nosep_strip (s : str) :
  nosep scan0 s = true -> nosep scan0 (strip s) = true.
Proof.
  destruct (strip_decomp s) as [lead [trail [Hs [Hl Ht]]]].
  intros H. rewrite Hs in H. rewrite !nosep_app in H.
  rewrite (scan_whitespace scan0 lead Hl) in H.
  apply andb_true_iff in H. destruct H as [_ H].
  apply andb_true_iff in H. now destruct H as [H _].
Qed.

Lemma lone_token_stable (line t : str) :
  _parse_package_string line = [t] -> t <> [] ->
  _parse_package_string t = [t].
Proof.
  rewrite !tokens_chunks. intros H Hne.
  destruct (chunks scan0 [] line) as [|c [|? ?]] eqn:E; try discriminate.
  cbn in H. injection H as H.
  apply chunks_single in E. destruct E as [Hc Hsep]. cbn [app] in Hc. subst c.
  assert (Hns : nosep scan0 t = true).
  { destruct Hsep as [Hsep | [b [Hb Hsep]]].
    - rewrite <- H. now apply nosep_strip.
    - rewrite <- H, Hb, strip_app_space by reflexivity.
      now apply nosep_strip. }
  rewrite (chunks_nosep t scan0 [] Hns). cbn [app].
  destruct t as [|x t]; [contradiction|]. cbn [emit map].
  rewrite <- H. now rewrite strip_idem.
Qed.

(** C6, as amended.  Tokenizing a non-empty token that is the only token of
    some line gives that token back; and for a line whose quotes and
    brackets are balanced, the tokens joined with single spaces are the line
    up to whitespace outside quoted and bracketed spans: both collapse to
    the same text, runs of such whitespace becoming one space and those at
    the ends disappearing. *)
Theorem single_token_idempotent_and_rejoin (line t : str) :
  (_parse_package_string line = [t] -> t <> [] ->
   _parse_package_string t = [t])
  /\ (balanced line = true ->
      collapse (join (lit " ") (_parse_package_string line)) = collapse line).
Proof.
  split; [apply lone_token_stable|].
  intros Hb. unfold collapse. f_equal. rewrite tokens_chunks.
  exact (words_join_tokens line scan0 [] eq_refl Hb).
Qed.

Lemma single_token_idempotent_and_rejoin_witness :
  _parse_package_string (lit "[ebuild  U ] ") = [lit "[ebuild  U ]"]
  /\ _parse_package_string (lit "[ebuild  U ]") = [lit "[ebuild  U ]"]
  /\ collapse (join (lit " ") (_parse_package_string (lit "[ebuild  U ] ")))
     = collapse (lit "[ebuild  U ] ").
Proof.
  pose proof (single_token_idempotent_and_rejoin
                (lit "[ebuild  U ] ") (lit "[ebuild  U ]")) as [H1 H2].
  split; [reflexivity|]. split.
  - apply H1; [reflexivity | discriminate].
  - apply H2. reflexivity.
Defined.

(** C6 as stated fails: the line made of one space is tokenized into the
    single token [""], and tokenizing that token gives no token at all. *)
Lemma single_token_not_idempotent :
  ~ (forall line t : str,
        _parse_package_string line = [t] -> _parse_package_string t = [t]).
Proof.
  intros H. specialize (H (lit " ") [] eq_refl). discriminate H.
Qed.

(** ** Classification of the status token *)

(** C4.  [_determine_update_status] answers ["NewPackage"] when the text has
    the character [N]; otherwise ["ReEmerge"] when it has [R]; otherwise
    ["Update"] when it has [U]; otherwise ["Undefined"].  The tests are
    case-sensitive and the first that holds decides. *)
Theorem determine_update_status_precedence (s : str) :
  _determine_update_status s =
    if existsb (Ascii.eqb "N") s then lit "NewPackage"
    else if existsb (Ascii.eqb "R") s then lit "ReEmerge"
    else if existsb (Ascii.eqb "U") s then lit "Update"
    else lit "Undefined".
Proof.
  unfold _determine_update_status.
  change (lit "N") with ["N"%char]. change (lit "R") with ["R"%char].
  change (lit "U") with ["U"%char]. rewrite !contains_char.
  reflexivity.
Qed.

(** ** Scenario A *)

(** C1.  The line of scenario A yields exactly one record: kind [ebuild],
    name [sys-devel/gnuconfig], new version [20230731], old version
    [20230121], repository [gentoo], status [Update], no attribute.  Of the
    hyphen-delimited parts of [sys-devel/gnuconfig-20230731] only the last,
    which is numeric, is left out of the name; in general a part is left out
    when it is numeric, or has a dot or a colon, or is [r] followed by one
    numeric character. *)
Theorem scenario_A_record :
  parse_update_details [scenario_A]
  = Ok [ {| package_type := lit "ebuild";
            package_name := lit "sys-devel/gnuconfig";
            new_version := Some (lit "20230731");
            old_version := Some (lit "20230121");
            update_status := lit "Update";
            repo := Some (lit "gentoo");
            attributes := [] |} ]
  /\ map (fun part => (part, version_part part))
         (split (lit "-") (lit "sys-devel/gnuconfig-20230731"))
     = [ (lit "sys", false); (lit "devel/gnuconfig", false);
         (lit "20230731", true) ]
  /\ (forall part,
        version_part part
        = (negb (str_eqb part []) && forallb isnumeric_char part)
          || existsb (Ascii.eqb ".") part
          || existsb (Ascii.eqb ":") part
          || match part with
             | [c0; c1] => Ascii.eqb c0 "r" && isnumeric_char c1
             | _ => false
             end).
Proof.
  split; [vm_compute; reflexivity|]. split; [vm_compute; reflexivity|].
  intros part. unfold version_part.
  change (lit ".") with ["."%char]. change (lit ":") with [":"%char].
  rewrite !contains_char.
  assert (E : isnumeric part
              = negb (str_eqb part []) && forallb isnumeric_char part)
    by now destruct part.
  rewrite <- E. destruct (isnumeric part); [reflexivity|]. cbn [orb].
  destruct (existsb (Ascii.eqb ".") part || existsb (Ascii.eqb ":") part);
    [reflexivity|].
  destruct part as [|c0 [|c1 [|c2 part]]]; try reflexivity.
  cbn [isnumeric forallb orb]. now rewrite andb_true_r.
Qed.

(** ** Exceptions of [parse_update_details] *)

(** C2, as amended.  [parse_update_details] returns normally exactly when
    every line it selects has the tokens its builder reads: an [ebuild] line
    at least three tokens with ["::"] in the second, a [blocks] line at
    least two tokens, an [uninstall] line at least two tokens with ["::"] in
    the second.  Lines that are not selected and lines of no known variant
    never make it raise.  Otherwise it raises [IndexError]. *)
Theorem parse_update_details_raises (section_content : list str) :
  if forallb line_ok section_content
  then exists packages, parse_update_details section_content = Ok packages
  else parse_update_details section_content = Raise IndexError.
Proof. apply details_loop_raises. Qed.

(** C2 as stated fails: a truncated [ebuild] line and an [uninstall] token
    without ["::"] both raise [IndexError]. *)
Lemma truncated_lines_raise :
  parse_update_details [lit "[ebuild     U  ]"] = Raise IndexError
  /\ parse_update_details [lit "[uninstall     ] perl-core/Compress-Raw-Zlib"]
     = Raise IndexError.
Proof. split; vm_compute; reflexivity. Qed.

(** ** Regular expressions: the matcher decides the language *)

Import Re.

Lemma nullable_lang (r : regex) : nullable r = true <-> lang r [].
Proof.
  split.
  - induction r; cbn; intros H; try discriminate.
    + constructor.
    + apply andb_true_iff in H. destruct H as [H1 H2].
      change (@nil ascii) with (@nil ascii ++ []). constructor; auto.
    + apply orb_true_iff in H. destruct H; [apply L_AltL | apply L_AltR]; auto.
    + constructor.
  - intros H. remember [] as s eqn:Es. induction H; cbn; try discriminate; auto.
    + apply app_eq_nil in Es. destruct Es as [-> ->].
      now rewrite IHlang1, IHlang2.
    + now rewrite IHlang.
    + rewrite IHlang by auto. apply orb_true_r.
Qed.

Lemma star_cons (r : regex) (a : ascii) (s : str) :
  lang (Star r) (a :: s) ->
  exists s1 s2, s = s1 ++ s2 /\ lang r (a :: s1) /\ lang (Star r) s2.
Proof.
  intros H. remember (Star r) as r' eqn:Er. remember (a :: s) as s' eqn:Es.
  revert Er Es. induction H; intros Er Es; try discriminate.
  injection Er as ->. destruct s1 as [|x s1].
  - cbn in Es. now apply IHlang2.
  - cbn in Es. injection Es as -> <-. now exists s1, s2.
Qed.

Lemma lang_chr (c : ascii) (s : str) : lang (Chr c) s <-> s = [c].
Proof.
  split; [intros H; now inversion H | intros ->; constructor].
Qed.

Lemma lang_seq (r1 r2 : regex) (s : str) :
  lang (Seq r1 r2) s <-> exists s1 s2, s = s1 ++ s2 /\ lang r1 s1 /\ lang r2 s2.
Proof.
  split.
  - intros H. inversion H; subst. eauto.
  - intros [s1 [s2 [-> [H1 H2]]]]. now constructor.
Qed.

Lemma lang_alt (r1 r2 : regex) (s : str) :
  lang (Alt r1 r2) s <-> lang r1 s \/ lang r2 s.
Proof.
  split.
  - intros H. inversion H; subst; auto.
  - intros [H | H]; [now apply L_AltL | now apply L_AltR].
Qed.

Lemma lang_seq_cons (r1 r2 : regex) (a : ascii) (s : str) :
  lang (Seq r1 r2) (a :: s) <->
  (lang r1 [] /\ lang r2 (a :: s))
  \/ exists s1 s2, s = s1 ++ s2 /\ lang r1 (a :: s1) /\ lang r2 s2.
Proof.
  rewrite lang_seq. split.
  - intros [s1 [s2 [E [H1 H2]]]]. destruct s1 as [|x s1].
    + cbn in E. subst s2. now left.
    + cbn in E. injection E as -> ->. right. now exists s1, s2.
  - intros [[H1 H2] | [s1 [s2 [-> [H1 H2]]]]].
    + now exists [], (a :: s).
    + now exists (a :: s1), s2.
Qed.

Lemma deriv_lang (r : regex) (a : ascii) (s : str) :
  lang (deriv a r) s <-> lang r (a :: s).
Proof.
  revert s. induction r; intros s; cbn [deriv].
  - split; intros H; inversion H.
  - split; intros H; inversion H.
  - destruct (Ascii.eqb_spec a c) as [->|Hn]; split; intros H; inversion H; subst.
    + constructor.
    + constructor.
    + contradiction.
  - destruct (Ascii.eqb_spec a newline) as [->|Hn]; split; intros H;
      inversion H; subst.
    + contradiction.
    + now constructor.
    + constructor.
  - split; intros H; inversion H; subst; constructor.
  - rewrite lang_seq_cons. destruct (nullable r1) eqn:Hn.
    + rewrite lang_alt, lang_seq, IHr2. split.
      * intros [[s1 [s2 [-> [H1 H2]]]] | H2].
        -- right. exists s1, s2. now rewrite <- IHr1.
        -- left. split; [now apply nullable_lang | exact H2].
      * intros [[_ H2] | [s1 [s2 [-> [H1 H2]]]]].
        -- now right.
        -- left. exists s1, s2. now rewrite IHr1.
    + rewrite lang_seq. split.
      * intros [s1 [s2 [-> [H1 H2]]]].
        right. exists s1, s2. now rewrite <- IHr1.
      * intros [[H1 _] | [s1 [s2 [-> [H1 H2]]]]].
        -- apply nullable_lang in H1. congruence.
        -- exists s1, s2. now rewrite IHr1.
  - rewrite !lang_alt, IHr1, IHr2. reflexivity.
  - rewrite lang_seq. split.
    + intros [s1 [s2 [-> [H1 H2]]]]. apply IHr in H1.
      change (a :: s1 ++ s2) with ((a :: s1) ++ s2). now constructor.
    + intros H. apply star_cons in H. destruct H as [s1 [s2 [-> [Ha Hb]]]].
      exists s1, s2. now rewrite IHr.
Qed.

Lemma fullmatch_lang (s : str) (r : regex) :
  fullmatch r s = true <-> lang r s.
Proof.
  revert r. induction s as [|a s IH]; intros r; cbn [fullmatch].
  - apply nullable_lang.
  - rewrite IH. apply deriv_lang.
Qed.

Lemma lang_any_star (s : str) : lang (Star AnyChar) s.
Proof.
  induction s as [|a s IH]; [constructor|].
  change (a :: s) with ([a] ++ s). constructor; [constructor | exact IH].
Qed.

Lemma search_lang (r : regex) (s : str) :
  search r s = true <-> exists a m b, s = a ++ m ++ b /\ lang r m.
Proof.
  unfold search. rewrite fullmatch_lang, lang_seq. split.
  - intros [a [mb [-> [_ Hmb]]]]. apply lang_seq in Hmb.
    destruct Hmb as [m [b [-> [Hm _]]]]. now exists a, m, b.
  - intros [a [m [b [-> Hm]]]]. exists a, (m ++ b).
    split; [reflexivity|]. split; [apply lang_any_star|].
    apply lang_seq. exists m, b. split; [reflexivity|].
    split; [exact Hm | apply lang_any_star].
Qed.

Lemma lang_dot_star (s : str) : lang (Star Dot) s <-> ~ In newline s.
Proof.
  split.
  - intros H. remember (Star Dot) as r eqn:Er. induction H; try discriminate.
    + intros [].
    + injection Er as ->. inversion H; subst. cbn [app In]. intros [E | Hin].
      * congruence.
      * now apply IHlang2.
  - induction s as [|a s IH]; intros Hn; [constructor|].
    change (a :: s) with ([a] ++ s). constructor.
    + constructor. intros ->. apply Hn. now left.
    + apply IH. intros Hin. apply Hn. now right.
Qed.

Lemma lang_dot_plus (s : str) :
  lang (Plus Dot) s <-> s <> [] /\ ~ In newline s.
Proof.
  unfold Plus. rewrite lang_seq. split.
  - intros [s1 [s2 [-> [Ha Hb]]]].
    inversion Ha; subst. apply lang_dot_star in Hb. split; [discriminate|].
    cbn [app In]. intros [E | Hin]; [congruence | contradiction].
  - intros [Hne Hn]. destruct s as [|a s]; [contradiction|].
    exists [a], s. split; [reflexivity|]. split.
    + constructor. intros ->. apply Hn. now left.
    + apply lang_dot_star. intros Hin. apply Hn. now right.
Qed.

Lemma search_ebuild_info_pattern (line : str) :
  search ebuild_info_pattern line = true <-> has_bracketed line.
Proof.
  rewrite search_lang. unfold has_bracketed, ebuild_info_pattern. split.
  - intros [a [m [b [-> Hm]]]].
    apply lang_seq in Hm. destruct Hm as [o [s2 [-> [Ho Hm]]]].
    apply lang_chr in Ho. subst o.
    apply lang_seq in Hm. destruct Hm as [mid [c [-> [Hmid Hc]]]].
    apply lang_chr in Hc. subst c. apply lang_dot_plus in Hmid.
    exists a, mid, b. split; [|exact Hmid].
    cbn [app]. now rewrite <- app_assoc.
  - intros [a [m [b [-> Hm]]]].
    exists a, ("["%char :: m ++ ["]"%char]), b. split.
    + cbn [app]. now rewrite <- app_assoc.
    + change ("["%char :: m ++ ["]"%char]) with (["["%char] ++ m ++ ["]"%char]).
      constructor; [constructor|].
      constructor; [now apply lang_dot_plus | constructor].
Qed.

(** ** Selection, dispatch and order in [parse_update_details] *)

Lemma tokens_nonempty (line : str) :
  line <> [] -> _parse_package_string line <> [].
Proof.
  intros Hne H. rewrite tokens_chunks in H. apply map_eq_nil in H.
  apply chunks_nil in H. now destruct H.
Qed.

Lemma is_package_string_nonempty (line : str) :
  is_package_string line = true -> line <> [].
Proof. intros H ->. discriminate H. Qed.

Lemma dispatch_variant (line : str) :
  line <> [] ->
  dispatch (_parse_package_string line)
  = if has_variant line
    then p <- build_record line ;; Ok (Some p)
    else Ok None.
Proof.
  intros Hne. apply tokens_nonempty in Hne.
  unfold dispatch, has_variant, build_record.
  destruct (_parse_package_string line) as [|t0 rest]; [contradiction|].
  cbn [index nth_error bind].
  destruct (contains (lit "ebuild") t0); [reflexivity|].
  destruct (contains (lit "blocks") t0); [reflexivity|].
  destruct (contains (lit "uninstall") t0); reflexivity.
Qed.

Lemma bind_assoc {A B C : Type} (m : result A) (f : A -> result B)
      (g : B -> result C) :
  bind (bind m f) g = bind m (fun a => bind (f a) g).
Proof. now destruct m. Qed.

Lemma details_loop_sequence (lines : list str) (packages : list PackageInfo) :
  for_each details_step (filter is_package_string lines) packages
  = recs <- sequence
              (map build_record
                 (filter (fun line => is_package_string line && has_variant line)
                    lines)) ;;
    Ok (packages ++ recs).
Proof.
  revert packages. induction lines as [|line lines IH]; intros packages.
  - cbn. now rewrite app_nil_r.
  - cbn [filter]. destruct (is_package_string line) eqn:Hsel; cbn [andb].
    + cbn [for_each]. unfold details_step at 1.
      rewrite (dispatch_variant line (is_package_string_nonempty line Hsel)).
      destruct (has_variant line).
      * cbn [map sequence]. destruct (build_record line) as [p|e]; cbn [bind].
        -- rewrite IH.
           destruct (sequence _) as [recs|e]; cbn [bind]; [|reflexivity].
           now rewrite <- app_assoc.
        -- reflexivity.
      * cbn [bind]. apply IH.
    + apply IH.
Qed.

(** C7.  [parse_update_details] handles exactly the lines that have a
    substring [[m]], [m] non-empty and without a newline, and that are not
    the line ["[ ok ]"]; among them, the lines whose first token has none of
    ["ebuild"], ["blocks"] and ["uninstall"] give no record; the records of
    the others come in the order of their lines, one for each line, nothing
    sorted and nothing dropped as a duplicate. *)
Theorem parse_update_details_filter_order (section_content : list str) :
  parse_update_details section_content
  = sequence
      (map build_record
         (filter (fun line => is_package_string line && has_variant line)
            section_content))
  /\ (forall line,
        is_package_string line = true
        <-> has_bracketed line /\ line <> lit "[ ok ]").
Proof.
  split.
  - unfold parse_update_details. rewrite details_loop_sequence.
    destruct (sequence _); reflexivity.
  - intros line. unfold is_package_string.
    rewrite andb_true_iff, negb_true_iff, str_eqb_neq.
    now rewrite search_ebuild_info_pattern.
Qed.

(** ** Dictionaries *)

Lemma existsb_str_eqb_In (k : str) (l : list str) :
  existsb (fun k' => str_eqb k' k) l = true <-> In k l.
Proof.
  rewrite existsb_exists. split.
  - intros [x [Hin E]]. apply str_eqb_eq in E. now subst.
  - intros H. exists k. split; [exact H | apply str_eqb_refl].
Qed.

Section Dict.

Context {V : Type}.

Lemma keys_set (d : PyDict.dict V) (k : str) (v : V) :
  PyDict.keys (PyDict.set d k v)
  = if existsb (fun k' => str_eqb k' k) (PyDict.keys d)
    then PyDict.keys d else PyDict.keys d ++ [k].
Proof.
  induction d as [|[k' v'] d IH]; [reflexivity|].
  cbn [PyDict.set PyDict.keys map fst existsb].
  destruct (str_eqb k' k) eqn:E; [reflexivity|].
  cbn [map fst orb]. fold (PyDict.keys (PyDict.set d k v)). rewrite IH.
  fold (PyDict.keys d). now destruct (existsb _ (PyDict.keys d)).
Qed.

Lemma NoDup_keys_set (d : PyDict.dict V) (k : str) (v : V) :
  NoDup (PyDict.keys d) -> NoDup (PyDict.keys (PyDict.set d k v)).
Proof.
  intros H. rewrite keys_set.
  destruct (existsb _ (PyDict.keys d)) eqn:E; [exact H|].
  apply NoDup_app; [exact H | repeat constructor; intros [] |].
  intros x Hx [<- | []].
  apply existsb_str_eqb_In in Hx. congruence.
Qed.

Lemma NoDup_keys_update (other d : PyDict.dict V) :
  NoDup (PyDict.keys d) -> NoDup (PyDict.keys (PyDict.update d other)).
Proof.
  unfold PyDict.update. revert d.
  induction other as [|[k v] other IH]; intros d H; [exact H|].
  cbn [fold_left fst snd]. apply IH. now apply NoDup_keys_set.
Qed.

Lemma get_app (d1 d2 : PyDict.dict V) (k : str) :
  PyDict.get (d1 ++ d2) k
  = match PyDict.get d1 k with
    | Some v => Some v
    | None => PyDict.get d2 k
    end.
Proof.
  induction d1 as [|[k' v'] d1 IH]; [reflexivity|].
  cbn [app PyDict.get]. now destruct (str_eqb k' k).
Qed.

Lemma get_notin (d : PyDict.dict V) (k : str) :
  ~ In k (PyDict.keys d) -> PyDict.get d k = None.
Proof.
  induction d as [|[k' v'] d IH]; [reflexivity|].
  cbn [PyDict.keys map fst In PyDict.get]. intros H.
  destruct (str_eqb k' k) eqn:E.
  - apply str_eqb_eq in E. tauto.
  - apply IH. tauto.
Qed.

Lemma set_app_in (d1 d2 : PyDict.dict V) (k : str) (v : V) :
  In k (PyDict.keys d1) ->
  PyDict.set (d1 ++ d2) k v = PyDict.set d1 k v ++ d2.
Proof.
  induction d1 as [|[k' v'] d1 IH]; [intros []|].
  cbn [PyDict.keys map fst In app PyDict.set]. intros H.
  destruct (str_eqb k' k) eqn:E; [reflexivity|].
  apply str_eqb_neq in E. cbn [app]. f_equal. apply IH. tauto.
Qed.

Lemma set_app_notin (d1 d2 : PyDict.dict V) (k : str) (v : V) :
  ~ In k (PyDict.keys d1) ->
  PyDict.set (d1 ++ d2) k v = d1 ++ PyDict.set d2 k v.
Proof.
  induction d1 as [|[k' v'] d1 IH]; [reflexivity|].
  cbn [PyDict.keys map fst In app PyDict.set]. intros H.
  destruct (str_eqb k' k) eqn:E.
  - apply str_eqb_eq in E. tauto.
  - f_equal. apply IH. tauto.
Qed.

Lemma set_notin (d : PyDict.dict V) (k : str) (v : V) :
  ~ In k (PyDict.keys d) -> PyDict.set d k v = d ++ [(k, v)].
Proof.
  intros H. rewrite <- (app_nil_r d) at 1. now rewrite set_app_notin.
Qed.

Lemma keys_set_in (d : PyDict.dict V) (k : str) (v : V) :
  In k (PyDict.keys d) -> PyDict.keys (PyDict.set d k v) = PyDict.keys d.
Proof.
  intros H. rewrite keys_set. apply existsb_str_eqb_In in H. now rewrite H.
Qed.

Lemma keys_set_incl (d : PyDict.dict V) (k k' : str) (v : V) :
  In k' (PyDict.keys (PyDict.set d k v)) -> k' = k \/ In k' (PyDict.keys d).
Proof.
  rewrite keys_set. destruct (existsb _ (PyDict.keys d)); [auto|].
  intros H. apply in_app_or in H. destruct H as [H | [<- | []]]; auto.
Qed.

Lemma get_set_same (d : PyDict.dict V) (k : str) (v : V) :
  PyDict.get (PyDict.set d k v) k = Some v.
Proof.
  induction d as [|[k' v'] d IH]; cbn [PyDict.set PyDict.get].
  - now rewrite str_eqb_refl.
  - destruct (str_eqb k' k) eqn:E; cbn [PyDict.get]; now rewrite E.
Qed.

Lemma get_set_other (d : PyDict.dict V) (k k' : str) (v : V) :
  k <> k' -> PyDict.get (PyDict.set d k v) k' = PyDict.get d k'.
Proof.
  intros Hn. induction d as [|[k0 v0] d IH]; cbn [PyDict.set PyDict.get].
  - apply str_eqb_neq in Hn. now rewrite Hn.
  - destruct (str_eqb k0 k) eqn:E; cbn [PyDict.get].
    + apply str_eqb_eq in E. subst k0. apply str_eqb_neq in Hn.
      now rewrite Hn.
    + now rewrite IH.
Qed.

End Dict.

(** ** What the attribute loop leaves alone *)

Lemma attr_step_fields (p p' : PackageInfo) (var : str) :
  attr_step p var = Ok p' ->
  package_type p' = package_type p /\ package_name p' = package_name p
  /\ (NoDup (PyDict.keys (attributes p))
      -> NoDup (PyDict.keys (attributes p'))).
Proof.
  unfold attr_step. destruct (contains _ var).
  - destruct (index (split (lit "=") var) 0) as [key|]; [|discriminate].
    destruct (index (split (lit "=") var) 1) as [val|]; [|discriminate].
    cbn [bind]. intros [= <-]. cbn [add_attributes package_type package_name
                                     attributes].
    repeat split. apply NoDup_keys_update.
  - intros [= <-]. auto.
Qed.

Lemma attr_loop_fields (l : list str) (p p' : PackageInfo) :
  for_each attr_step l p = Ok p' ->
  package_type p' = package_type p /\ package_name p' = package_name p
  /\ (NoDup (PyDict.keys (attributes p))
      -> NoDup (PyDict.keys (attributes p'))).
Proof.
  revert p. induction l as [|var l IH]; intros p; cbn [for_each].
  - intros [= <-]. auto.
  - destruct (attr_step p var) as [q|] eqn:E; [|discriminate]. cbn [bind].
    intros H. apply IH in H. apply attr_step_fields in E.
    destruct H as [-> [-> H]], E as [-> [-> E]]. auto.
Qed.

(** ** Pieces of a split on one character *)

Lemma split_char_pieces (c : ascii) (s cur : str) :
  ~ In c cur -> Forall (fun p => ~ In c p) (split_go [c] 0 cur s).
Proof.
  revert cur. induction s as [|x s IH]; intros cur Hcur.
  - cbn. now constructor.
  - cbn [split_go prefixb length Nat.sub]. rewrite andb_true_r.
    destruct (Ascii.eqb_spec c x) as [->|Hn].
    + constructor; [exact Hcur | apply IH; intros []].
    + apply IH. intros Hin. apply in_app_or in Hin.
      destruct Hin as [Hin | [E | []]]; [contradiction | congruence].
Qed.

(** ** The name the ebuild builder makes *)

Lemma name_loop (parts : list str) (acc : str) :
  fold_left name_step parts acc
  = acc ++ concat (map (fun q => q ++ lit "-")
                       (filter (fun q => negb (version_part q)) parts)).
Proof.
  revert acc. induction parts as [|q parts IH]; intros acc.
  - cbn. now rewrite app_nil_r.
  - cbn [fold_left filter]. rewrite IH. unfold name_step.
    destruct (version_part q); cbn [negb]; [reflexivity|].
    cbn [map concat]. now rewrite <- !app_assoc.
Qed.

Lemma concat_sep_join (sep : str) (kept : list str) :
  kept <> [] ->
  concat (map (fun q => q ++ sep) kept) = join sep kept ++ sep.
Proof.
  induction kept as [|x [|y l] IH]; intros Hne.
  - contradiction.
  - cbn. now rewrite app_nil_r.
  - change (concat (map (fun q => q ++ sep) (x :: y :: l)))
      with ((x ++ sep) ++ concat (map (fun q => q ++ sep) (y :: l))).
    rewrite IH by discriminate.
    change (join sep (x :: y :: l)) with (x ++ sep ++ join sep (y :: l)).
    now rewrite <- !app_assoc.
Qed.

Lemma last_app_nonempty {A : Type} (a b : list A) (d : A) :
  b <> [] -> last (a ++ b) d = last b d.
Proof.
  intros Hb. induction a as [|x a IH]; [reflexivity|].
  cbn [app]. destruct (a ++ b) eqn:E.
  - apply app_eq_nil in E. now destruct E.
  - rewrite <- IH. reflexivity.
Qed.

Lemma join_hyphen_good (kept : list str) :
  kept <> [] ->
  Forall (fun q => q <> [] /\ ~ In "-"%char q) kept ->
  good_name (join (lit "-") kept).
Proof.
  unfold good_name. induction kept as [|x [|y l] IH]; intros Hne Hall.
  - contradiction.
  - inversion Hall as [|? ? [Hx Hn] _]; subst. cbn [join].
    split; [exact Hx|]. split.
    + destruct x as [|c x]; [contradiction|]. cbn. intros ->. apply Hn. now left.
    + intros E. apply Hn. rewrite <- E.
      destruct (exists_last Hx) as [x' [c ->]]. rewrite last_last.
      apply in_or_app. right. now left.
  - inversion Hall as [|? ? [Hx Hn] Hrest]; subst.
    destruct (IH ltac:(discriminate) Hrest) as [Hj [_ Hl]].
    change (join (lit "-") (x :: y :: l))
      with (x ++ lit "-" ++ join (lit "-") (y :: l)).
    split; [now destruct x|]. split.
    + destruct x as [|c x]; [contradiction|]. cbn. intros ->. apply Hn. now left.
    + rewrite app_assoc, last_app_nonempty by exact Hj. exact Hl.
Qed.

Lemma ebuild_name (parts : list str) :
  existsb (fun p => negb (version_part p)) parts = true ->
  forallb (fun p => version_part p || negb (str_eqb p [])) parts = true ->
  Forall (fun p => ~ In "-"%char p) parts ->
  good_name (slice_to_last (fold_left name_step parts [])).
Proof.
  intros Hex Hall Hparts. rewrite name_loop. cbn [app].
  set (kept := filter (fun q => negb (version_part q)) parts).
  assert (Hne : kept <> []).
  { apply existsb_exists in Hex. destruct Hex as [x [Hin Hx]].
    intros E. assert (Hk : In x kept) by (apply filter_In; auto).
    rewrite E in Hk. destruct Hk. }
  rewrite (concat_sep_join (lit "-") kept Hne).
  unfold slice_to_last. change (lit "-") with ["-"%char] at 2.
  rewrite removelast_last. apply join_hyphen_good; [exact Hne|].
  apply Forall_forall. intros q Hq. apply filter_In in Hq.
  destruct Hq as [Hin Hv]. apply negb_true_iff in Hv.
  rewrite forallb_forall in Hall. specialize (Hall q Hin).
  rewrite Hv in Hall. cbn in Hall. apply negb_true_iff, str_eqb_neq in Hall.
  rewrite Forall_forall in Hparts. auto.
Qed.

(** ** Records of the builders *)

Lemma ebuild_record (tokens : list str) (p : PackageInfo) :
  _parse_package_ebuild tokens = Ok p ->
  package_type p = lit "ebuild"
  /\ package_name p
     = slice_to_last (fold_left name_step (name_parts (nth 1 tokens [])) [])
  /\ NoDup (PyDict.keys (attributes p)).
Proof.
  unfold _parse_package_ebuild, name_parts.
  destruct (index tokens 0) as [t0|]; [|discriminate]. cbn [bind].
  destruct (index tokens 1) as [t1|] eqn:E1; [|discriminate]. cbn [bind].
  destruct (index (split (lit "::") t1) 1) as [r|]; [|discriminate].
  cbn [bind].
  destruct (index (split (lit "::") t1) 0) as [nn|] eqn:E0; [|discriminate].
  cbn [bind].
  destruct (index tokens 2) as [t2|]; [|discriminate]. cbn [bind].
  destruct (index (split (lit "::") t2) 0) as [o|]; [|discriminate].
  cbn [bind]. intros H. apply attr_loop_fields in H.
  destruct H as [Ht [Hn Hd]]. cbn in Ht, Hn, Hd.
  rewrite (index_nth tokens 1 t1 [] E1).
  rewrite (index_nth (split (lit "::") t1) 0 nn [] E0).
  split; [exact Ht|]. split; [exact Hn|]. apply Hd. constructor.
Qed.

Lemma blocks_record (tokens : list str) (p : PackageInfo) :
  _parse_package_blocks tokens = Ok p ->
  package_type p = lit "blocks"
  /\ new_version p = None /\ old_version p = None
  /\ NoDup (PyDict.keys (attributes p)).
Proof.
  unfold _parse_package_blocks.
  destruct (index tokens 1) as [t1|]; [|discriminate]. cbn [bind].
  destruct (index tokens 0) as [t0|]; [|discriminate]. cbn [bind].
  destruct (index_last tokens) as [l|]; [|discriminate]. cbn [bind].
  intros [= <-]. cbn. repeat split. repeat constructor. intros [].
Qed.

Lemma uninstall_record (tokens : list str) (p : PackageInfo) :
  _parse_package_uninstall tokens = Ok p ->
  package_type p = lit "uninstall"
  /\ new_version p = None /\ old_version p = None
  /\ NoDup (PyDict.keys (attributes p)).
Proof.
  unfold _parse_package_uninstall.
  destruct (index tokens 1) as [t1|]; [|discriminate]. cbn [bind].
  destruct (index (split (lit "::") t1) 0) as [n|]; [|discriminate].
  cbn [bind].
  destruct (index (split (lit "::") t1) 1) as [r|]; [|discriminate].
  cbn [bind].
  destruct (index tokens 0) as [t0|]; [|discriminate]. cbn [bind].
  intros [= <-]. cbn. repeat split. repeat constructor. intros [].
Qed.

(** C8, as amended.  Every record a builder returns has distinct attribute
    keys; a record of kind [blocks] or [uninstall] has no new and no old
    version; and a record of kind [ebuild] has a non-empty name without a
    leading or trailing hyphen when, among the hyphen-delimited parts of the
    second token's text before ["::"], some part is kept for the name and no
    kept part is empty. *)
Theorem builder_record_invariants (tokens : list str) (p : PackageInfo) :
  _parse_package_ebuild tokens = Ok p
  \/ _parse_package_blocks tokens = Ok p
  \/ _parse_package_uninstall tokens = Ok p ->
  NoDup (PyDict.keys (attributes p))
  /\ (package_type p = lit "blocks" \/ package_type p = lit "uninstall" ->
      new_version p = None /\ old_version p = None)
  /\ (package_type p = lit "ebuild" ->
      clean_name_parts (nth 1 tokens []) = true ->
      good_name (package_name p)).
Proof.
  intros [H | [H | H]].
  - apply ebuild_record in H. destruct H as [Ht [Hn Hd]].
    split; [exact Hd|]. split.
    + rewrite Ht. intros [E | E]; discriminate E.
    + intros _ Hc. unfold clean_name_parts in Hc.
      apply andb_true_iff in Hc. destruct Hc as [Hex Hall].
      rewrite Hn. apply ebuild_name; [exact Hex | exact Hall |].
      unfold name_parts, split. apply split_char_pieces. intros [].
  - apply blocks_record in H. destruct H as [Ht [Hnv [Hov Hd]]].
    split; [exact Hd|]. split; [auto|]. rewrite Ht. discriminate.
  - apply uninstall_record in H. destruct H as [Ht [Hnv [Hov Hd]]].
    split; [exact Hd|]. split; [auto|]. rewrite Ht. discriminate.
Qed.

Lemma builder_record_invariants_witness :
  let tokens :=
    [lit "[ebuild     U  ]"; lit "sys-devel/gnuconfig-20230731::gentoo";
     lit "[20230121::gentoo]"; lit "72"; lit "KiB"] in
  exists p,
    _parse_package_ebuild tokens = Ok p
    /\ NoDup (PyDict.keys (attributes p))
    /\ good_name (package_name p).
Proof.
  intros tokens. eexists. split; [vm_compute; reflexivity|].
  match goal with
  | |- NoDup (PyDict.keys (attributes ?p)) /\ _ =>
      assert (Hp : _parse_package_ebuild tokens = Ok p)
        by (vm_compute; reflexivity);
      destruct (builder_record_invariants tokens p (or_introl Hp))
        as [Hd [_ Hn]]
  end.
  split; [exact Hd|]. apply Hn; vm_compute; reflexivity.
Defined.

(** C8 as stated fails: when every hyphen-delimited part looks like a
    version the ebuild builder returns an empty name, and an empty part
    leaves a hyphen at the end of the name. *)
Lemma builder_name_can_be_empty :
  (exists p,
      _parse_package_ebuild
        [lit "[ebuild     U  ]"; lit "1.0::gentoo"; lit "[0.9::gentoo]"] = Ok p
      /\ package_name p = [])
  /\ (exists p,
         _parse_package_ebuild
           [lit "[ebuild     U  ]"; lit "-foo--1.0::gentoo"; lit "[0.9::gentoo]"]
         = Ok p
         /\ package_name p = lit "-foo-").
Proof.
  split; eexists; split; vm_compute; reflexivity.
Qed.

(** ** Attribute values that contain an equals sign *)

Lemma split_char_none (c : ascii) (s cur : str) :
  ~ In c s -> split_go [c] 0 cur s = [cur ++ s].
Proof.
  revert cur. induction s as [|x s IH]; intros cur Hn.
  - now rewrite app_nil_r.
  - cbn [split_go prefixb]. rewrite andb_true_r.
    destruct (Ascii.eqb_spec c x) as [->|_]; [exfalso; apply Hn; now left|].
    rewrite IH by (intros H; apply Hn; now right). now rewrite <- app_assoc.
Qed.

Lemma split_char_first (c : ascii) (a b cur : str) :
  ~ In c a ->
  split_go [c] 0 cur (a ++ c :: b) = (cur ++ a) :: split_go [c] 0 [] b.
Proof.
  revert cur. induction a as [|x a IH]; intros cur Hn.
  - cbn [app split_go prefixb length Nat.sub].
    now rewrite Ascii.eqb_refl, app_nil_r.
  - cbn [app split_go prefixb]. rewrite andb_true_r.
    destruct (Ascii.eqb_spec c x) as [->|_]; [exfalso; apply Hn; now left|].
    rewrite IH by (intros H; apply Hn; now right). now rewrite <- app_assoc.
Qed.

(** When the token has a single equals sign the loop stores, under the text
    before it, the text after it without its first and last character,
    split on spaces. *)
Lemma attr_step_one_equals (p : PackageInfo) (key val : str) :
  ~ In "="%char key -> ~ In "="%char val ->
  contains (lit "=" ++ [dquote]) (key ++ "="%char :: val) = true ->
  attr_step p (key ++ "="%char :: val)
  = Ok (add_attributes p
          [(key, VList (split (lit " ") (slice_inner val)))]).
Proof.
  intros Hk Hv Hc. unfold attr_step. rewrite Hc.
  unfold split at 1 2. change (lit "=") with ["="%char].
  rewrite (split_char_first "=" key val [] Hk).
  rewrite (split_char_none "=" val [] Hv). reflexivity.
Qed.

(** C9.  On the token [FOO="a=b c"] the ebuild builder stores the one empty
    string under [FOO]: the token is split at every equals sign, the value
    is taken from the piece between the first two, and that piece loses its
    first and its last character.  The quoted text split on spaces would be
    the two strings [a=b] and [c]. *)
Theorem attribute_value_with_equals_sign :
  let token := lit "FOO=" ++ [dquote] ++ lit "a=b c" ++ [dquote] in
  let tokens :=
    [lit "[ebuild     U  ]"; lit "app-misc/foo-1.0::gentoo";
     lit "[0.9::gentoo]"; token] in
  _parse_package_string
    (lit "[ebuild     U  ] app-misc/foo-1.0::gentoo [0.9::gentoo] " ++ token)
  = tokens
  /\ split (lit "=") token = [lit "FOO"; dquote :: lit "a"; lit "b c" ++ [dquote]]
  /\ (exists p,
         _parse_package_ebuild tokens = Ok p
         /\ attributes p = [(lit "FOO", VList [[]])]
         /\ attributes p <> [(lit "FOO", VList [lit "a=b"; lit "c"])]).
Proof.
  cbv zeta. split; [vm_compute; reflexivity|].
  split; [vm_compute; reflexivity|].
  eexists. split; [vm_compute; reflexivity|].
  split; [vm_compute; reflexivity | discriminate].
Qed.

(** ** Content lines of a mapping *)

Lemma section_lines_app (d1 d2 : PyDict.dict value) :
  section_lines (d1 ++ d2) = section_lines d1 ++ section_lines d2.
Proof. apply flat_map_app. Qed.

Lemma section_lines_cons (k : str) (v : value) (d : PyDict.dict value) :
  section_lines ((k, v) :: d)
  = match v with VList l => l | VStr _ => [] end ++ section_lines d.
Proof. reflexivity. Qed.

Lemma section_lines_set_str (d : PyDict.dict value) (k x : str) :
  (forall l, PyDict.get d k <> Some (VList l)) ->
  section_lines (PyDict.set d k (VStr x)) = section_lines d.
Proof.
  induction d as [|[k' v'] d IH]; intros H; [reflexivity|].
  cbn [PyDict.set]. cbn [PyDict.get] in H. destruct (str_eqb k' k).
  - destruct v' as [s|l]; [reflexivity|]. now specialize (H l).
  - rewrite !section_lines_cons. now rewrite IH.
Qed.

Lemma section_lines_quiet_set (d : PyDict.dict value) (k x : str) :
  section_lines d = [] -> section_lines (PyDict.set d k (VStr x)) = [].
Proof.
  induction d as [|[k' v'] d IH]; intros H; [reflexivity|].
  rewrite section_lines_cons in H.
  apply app_eq_nil in H. destruct H as [H1 H2].
  cbn [PyDict.set]. destruct (str_eqb k' k).
  - rewrite section_lines_cons. exact H2.
  - rewrite section_lines_cons. now rewrite H1, IH.
Qed.

(** ** Payloads of a log, one line more *)

Lemma headers_snoc (seen : list str) (line : str) :
  headers (seen ++ [line])
  = headers seen
    ++ (if is_marked line && is_header (payload line) then [payload line]
        else []).
Proof.
  unfold headers. rewrite filter_app, map_app, filter_app. f_equal.
  cbn [filter]. destruct (is_marked line); [|reflexivity].
  cbn [map filter andb]. now destruct (is_header (payload line)).
Qed.

Lemma contents_snoc (seen : list str) (line : str) :
  contents (seen ++ [line])
  = contents seen
    ++ (if is_marked line && negb (is_header (payload line))
        then [payload line] else []).
Proof.
  unfold contents. rewrite filter_app, map_app, filter_app. f_equal.
  cbn [filter]. destruct (is_marked line); [|reflexivity].
  cbn [map filter andb]. now destruct (is_header (payload line)).
Qed.

Lemma last_unmarked_snoc (seen : list str) (line : str) :
  last_unmarked (seen ++ [line])
  = if is_marked line then last_unmarked seen else Some line.
Proof.
  unfold last_unmarked. rewrite filter_app. cbn [filter].
  destruct (is_marked line); cbn [negb].
  - now rewrite app_nil_r.
  - now rewrite rev_app_distr.
Qed.

Lemma header_not_reserved (h : str) :
  is_header h = true -> h <> lit "final" /\ h <> lit "beginning".
Proof.
  intros H. split; intros ->; vm_compute in H; discriminate H.
Qed.

Lemma marked_payload (line : str) :
  is_marked line = true ->
  index (split Parser.marker line) 1 = Ok (nth 1 (split Parser.marker line) []).
Proof.
  intros H. unfold is_marked in H.
  pose proof (index_split_1 Parser.marker line ltac:(discriminate)) as H1.
  rewrite H in H1. destruct H1 as [a Ha]. rewrite Ha.
  now rewrite (index_nth _ 1 a [] Ha).
Qed.

(** ** The splitter's loop *)

Lemma split_inv_init : split_inv [] Parser.split_init.
Proof.
  unfold split_inv, Parser.split_init. cbn [Parser.log_by_sections
                                            Parser.section_name].
  split; [exists [], [], []; repeat split; intros []|].
  split; [intros k [<- | []]; now left|].
  repeat split; auto. repeat constructor. intros [].
Qed.

Lemma split_step_inv (seen : list str) (st : Parser.split_state) (line : str) :
  split_inv seen st -> NoDup (headers (seen ++ [line])) ->
  exists st', Parser.split_step st line = Ok st'
              /\ split_inv (seen ++ [line]) st'.
Proof.
  destruct st as [name d]. unfold split_inv.
  cbn [Parser.log_by_sections Parser.section_name].
  intros [[d1 [l [d2 [Hd [Hn1 Hq]]]]] [I2 [I3 [I4 [I5 I7]]]]] Hnd.
  assert (Hnf : name <> lit "final").
  { destruct I5 as [-> | Hin]; [discriminate|].
    apply filter_In in Hin. destruct Hin as [_ Hh].
    now apply header_not_reserved in Hh. }
  unfold Parser.split_step.
  cbn [Parser.log_by_sections Parser.section_name].
  change (contains Parser.marker line) with (is_marked line).
  rewrite headers_snoc in Hnd.
  rewrite headers_snoc, contents_snoc, last_unmarked_snoc.
  destruct (is_marked line) eqn:Hm; cbn [andb] in *.
  - rewrite (marked_payload line Hm). cbn [bind].
    change (strip (nth 1 (split Parser.marker line) [])) with (payload line).
    change (Re.search Parser.section_pattern (payload line))
      with (is_header (payload line)).
    set (x := payload line) in *.
    destruct (is_header x) eqn:Hh; cbn [negb].
    + (* a header opens a section *)
      apply NoDup_remove_2 in Hnd. rewrite app_nil_r in Hnd.
      destruct (header_not_reserved x Hh) as [Hxf Hxb].
      assert (Hxk : ~ In x (PyDict.keys d)).
      { intros Hin. destruct (I2 x Hin) as [E | [E | E]]; contradiction. }
      eexists. split; [reflexivity|].
      cbn [Parser.log_by_sections Parser.section_name].
      split; [exists d, [], []; rewrite (set_notin d x _ Hxk); auto|].
      split.
      { intros k Hk. apply keys_set_incl in Hk. destruct Hk as [-> | Hk].
        - right. right. apply in_or_app. right. now left.
        - destruct (I2 k Hk) as [E | [E | E]]; auto.
          right. right. apply in_or_app. now left. }
      split.
      { rewrite (set_notin d x _ Hxk), section_lines_app, I3. reflexivity. }
      split; [now rewrite get_set_other|].
      split; [right; apply in_or_app; right; now left|].
      now apply NoDup_keys_set.
    + (* a content line joins the current section *)
      unfold Parser.append_line.
      assert (Hget : PyDict.get d name = Some (VList l)).
      { rewrite Hd, get_app, (get_notin d1 name Hn1). cbn [PyDict.get].
        now rewrite str_eqb_refl. }
      rewrite Hget. cbn [bind]. eexists. split; [reflexivity|].
      cbn [Parser.log_by_sections Parser.section_name].
      assert (Hset : PyDict.set d name (VList (l ++ [x]))
                     = d1 ++ (name, VList (l ++ [x])) :: d2).
      { rewrite Hd, (set_app_notin d1 _ name _ Hn1). cbn [PyDict.set].
        now rewrite str_eqb_refl. }
      split; [exists d1, (l ++ [x]), d2; auto|].
      split.
      { intros k Hk. apply keys_set_incl in Hk. rewrite app_nil_r.
        destruct Hk as [-> | Hk]; [|now apply I2].
        destruct I5 as [E | E]; auto. }
      split.
      { rewrite Hset, section_lines_app, section_lines_cons, Hq, <- I3, Hd.
        rewrite section_lines_app, section_lines_cons, Hq.
        now rewrite !app_nil_r, <- !app_assoc. }
      split; [now rewrite get_set_other|].
      split; [now rewrite app_nil_r|].
      now apply NoDup_keys_set.
  - (* an unmarked line takes the slot of "final" *)
    eexists. split; [reflexivity|].
    cbn [Parser.log_by_sections Parser.section_name]. rewrite !app_nil_r.
    split.
    { destruct (in_dec (list_eq_dec ascii_dec) (lit "final") (PyDict.keys d1))
        as [Hin | Hnin].
      - exists (PyDict.set d1 (lit "final") (VStr line)), l, d2.
        rewrite Hd, (set_app_in d1 _ _ _ Hin).
        rewrite (keys_set_in d1 _ _ Hin). auto.
      - exists d1, l, (PyDict.set d2 (lit "final") (VStr line)).
        rewrite Hd, (set_app_notin d1 _ _ _ Hnin). cbn [PyDict.set].
        apply str_eqb_neq in Hnf. rewrite Hnf.
        repeat split; [exact Hn1 | now apply section_lines_quiet_set]. }
    split.
    { intros k Hk. apply keys_set_incl in Hk.
      destruct Hk as [-> | Hk]; [auto | now apply I2]. }
    split.
    { rewrite section_lines_set_str; [exact I3|].
      intros l' E. rewrite I4 in E. now destruct (last_unmarked seen). }
    split; [apply get_set_same|].
    split; [exact I5 | now apply NoDup_keys_set].
Qed.

Lemma NoDup_app_l {A : Type} (a b : list A) : NoDup (a ++ b) -> NoDup a.
Proof.
  induction b as [|x b IH]; [now rewrite app_nil_r|].
  intros H. apply IH. now apply NoDup_remove_1 in H.
Qed.

Lemma headers_app (a b : list str) : headers (a ++ b) = headers a ++ headers b.
Proof. unfold headers. now rewrite filter_app, map_app, filter_app. Qed.

Lemma split_loop_inv (rest seen : list str) (st : Parser.split_state) :
  split_inv seen st -> NoDup (headers (seen ++ rest)) ->
  exists st', for_each Parser.split_step rest st = Ok st'
              /\ split_inv (seen ++ rest) st'.
Proof.
  revert seen st. induction rest as [|line rest IH]; intros seen st Hinv Hnd.
  - exists st. rewrite app_nil_r. auto.
  - assert (E : seen ++ line :: rest = (seen ++ [line]) ++ rest)
      by now rewrite <- app_assoc.
    rewrite E in *. cbn [for_each].
    destruct (split_step_inv seen st line Hinv) as [st1 [Hs Hinv1]].
    { rewrite headers_app in Hnd. now apply NoDup_app_l in Hnd. }
    rewrite Hs. cbn [bind]. now apply IH.
Qed.

(** C3 as stated fails: a header that comes a second time empties its
    section, so the marked line read in between is in no content list. *)
Lemma repeated_header_drops_lines :
  let log :=
    [lit "10:02 INFO ::: {{ UPDATE SYSTEM }}";
     lit "10:02 INFO ::: update was successful";
     lit "10:03 INFO ::: {{ UPDATE SYSTEM }}"] in
  Parser.split_log_to_sections log
  = Ok [(lit "beginning", VList []); (lit "{{ UPDATE SYSTEM }}", VList [])]
  /\ contents log = [lit "update was successful"].
Proof. split; vm_compute; reflexivity. Qed.

(** * Further properties *)

(** ** The splitter on every log *)

Lemma existsb_In_eq (k : str) (l1 l2 : list str) :
  (In k l1 <-> In k l2) ->
  existsb (fun k' => str_eqb k' k) l1 = existsb (fun k' => str_eqb k' k) l2.
Proof.
  intros H.
  destruct (existsb _ l1) eqn:E1, (existsb _ l2) eqn:E2; try reflexivity.
  - apply existsb_str_eqb_In, H, existsb_str_eqb_In in E1. congruence.
  - apply existsb_str_eqb_In, H, existsb_str_eqb_In in E2. congruence.
Qed.

Lemma first_occurrences_In (x : str) (l : list str) :
  In x (first_occurrences l) <-> In x l.
Proof.
  induction l as [|y l IH]; [reflexivity|].
  cbn [first_occurrences In]. rewrite filter_In, IH, negb_true_iff, str_eqb_neq.
  split.
  - intros [E | [H _]]; auto.
  - intros [E | H]; [auto|].
    destruct (list_eq_dec ascii_dec y x) as [E | Hn]; auto.
Qed.

Lemma first_occurrences_snoc (l : list str) (h : str) :
  first_occurrences (l ++ [h])
  = first_occurrences l
    ++ (if existsb (fun y => str_eqb y h) l then [] else [h]).
Proof.
  induction l as [|x l IH].
  - reflexivity.
  - cbn [app first_occurrences existsb]. rewrite IH, filter_app. f_equal.
    f_equal. destruct (str_eqb x h) eqn:E; cbn [orb].
    + apply str_eqb_eq in E. subst x.
      destruct (existsb _ l); cbn [filter]; [reflexivity|].
      now rewrite str_eqb_refl.
    + destruct (existsb _ l); cbn [filter]; [reflexivity|].
      apply str_eqb_neq in E.
      assert (E' : str_eqb h x = false) by (apply str_eqb_neq; congruence).
      now rewrite E'.
Qed.

Lemma get_some_in_keys {V : Type} (d : PyDict.dict V) (k : str) (v : V) :
  PyDict.get d k = Some v -> In k (PyDict.keys d).
Proof.
  intros H.
  destruct (in_dec (list_eq_dec ascii_dec) k (PyDict.keys d)) as [Hin | Hn];
    [exact Hin|].
  rewrite (get_notin d k Hn) in H. discriminate.
Qed.

Lemma section_keys_set_final (d : PyDict.dict value) (v : value) :
  section_keys (PyDict.set d (lit "final") v) = section_keys d.
Proof.
  unfold section_keys. rewrite keys_set.
  destruct (existsb _ (PyDict.keys d)); [reflexivity|].
  rewrite filter_app. cbn [filter]. rewrite str_eqb_refl. cbn [negb].
  apply app_nil_r.
Qed.

Lemma section_keys_set_other (d : PyDict.dict value) (k : str) (v : value) :
  k <> lit "final" ->
  section_keys (PyDict.set d k v)
  = if existsb (fun k' => str_eqb k' k) (section_keys d)
    then section_keys d else section_keys d ++ [k].
Proof.
  intros Hk. unfold section_keys. rewrite keys_set.
  rewrite (existsb_In_eq k
             (filter (fun k0 => negb (str_eqb k0 (lit "final"))) (PyDict.keys d))
             (PyDict.keys d)).
  - destruct (existsb _ (PyDict.keys d)); [reflexivity|].
    rewrite filter_app. cbn [filter].
    apply str_eqb_neq in Hk. now rewrite Hk.
  - rewrite filter_In, negb_true_iff, str_eqb_neq. tauto.
Qed.

Lemma split_keeps_init : split_keeps [] Parser.split_init.
Proof.
  unfold split_keeps, Parser.split_init.
  cbn [Parser.log_by_sections Parser.section_name].
  split; [discriminate|]. split; [now exists []|].
  split; [now exists (VList []), []|]. split; reflexivity.
Qed.

Lemma split_step_keeps (seen : list str) (st : Parser.split_state)
      (line : str) :
  split_keeps seen st ->
  exists st', Parser.split_step st line = Ok st'
              /\ split_keeps (seen ++ [line]) st'.
Proof.
  destruct st as [name d]. unfold split_keeps.
  cbn [Parser.log_by_sections Parser.section_name].
  intros [Hnf [[l Hget] [[v [d' Hd]] [Hfin Hkeys]]]].
  unfold Parser.split_step.
  cbn [Parser.log_by_sections Parser.section_name].
  change (contains Parser.marker line) with (is_marked line).
  rewrite headers_snoc, last_unmarked_snoc.
  destruct (is_marked line) eqn:Hm; cbn [andb].
  - rewrite (marked_payload line Hm). cbn [bind].
    change (strip (nth 1 (split Parser.marker line) [])) with (payload line).
    change (Re.search Parser.section_pattern (payload line))
      with (is_header (payload line)).
    set (x := payload line) in *.
    destruct (is_header x) eqn:Hh.
    + destruct (header_not_reserved x Hh) as [Hxf Hxb].
      eexists. split; [reflexivity|].
      cbn [Parser.log_by_sections Parser.section_name].
      split; [exact Hxf|]. split; [eexists; apply get_set_same|].
      split.
      { rewrite Hd. cbn [PyDict.set].
        destruct (str_eqb (lit "beginning") x); eauto. }
      split; [now rewrite get_set_other|].
      rewrite (section_keys_set_other d x _ Hxf), Hkeys, first_occurrences_snoc.
      cbn [existsb]. apply str_eqb_neq in Hxb.
      assert (Hbx : str_eqb (lit "beginning") x = false)
        by (apply str_eqb_neq; apply str_eqb_neq in Hxb; congruence).
      rewrite Hbx. cbn [orb].
      rewrite (existsb_In_eq x (first_occurrences (headers seen)) (headers seen))
        by apply first_occurrences_In.
      destruct (existsb _ (headers seen)); [now rewrite app_nil_r | reflexivity].
    + unfold Parser.append_line. rewrite Hget. cbn [bind].
      eexists. split; [reflexivity|].
      cbn [Parser.log_by_sections Parser.section_name].
      split; [exact Hnf|]. split; [eexists; apply get_set_same|].
      split.
      { rewrite Hd. cbn [PyDict.set].
        destruct (str_eqb (lit "beginning") name); eauto. }
      split; [now rewrite get_set_other|].
      rewrite app_nil_r, <- Hkeys. unfold section_keys. f_equal.
      apply keys_set_in. now apply get_some_in_keys in Hget.
  - eexists. split; [reflexivity|].
    cbn [Parser.log_by_sections Parser.section_name].
    split; [exact Hnf|].
    split; [exists l; rewrite get_set_other; [exact Hget | congruence]|].
    split.
    { rewrite Hd. cbn [PyDict.set].
      change (str_eqb (lit "beginning") (lit "final")) with false. eauto. }
    split; [apply get_set_same|].
    now rewrite app_nil_r, section_keys_set_final.
Qed.

Lemma split_loop_keeps (rest seen : list str) (st : Parser.split_state) :
  split_keeps seen st ->
  exists st', for_each Parser.split_step rest st = Ok st'
              /\ split_keeps (seen ++ rest) st'.
Proof.
  revert seen st. induction rest as [|line rest IH]; intros seen st Hk.
  - exists st. now rewrite app_nil_r.
  - destruct (split_step_keeps seen st line Hk) as [st1 [Hs Hk1]].
    cbn [for_each]. rewrite Hs. cbn [bind].
    destruct (IH _ _ Hk1) as [st' [Hs' Hk']].
    exists st'. split; [exact Hs'|]. now rewrite <- app_assoc in Hk'.
Qed.

(** X1.  [split_log_to_sections] never raises, whatever the log: it returns
    a mapping whose first key is ["beginning"], and whose keys other than
    ["final"] are ["beginning"] followed by the section headers of the log,
    each once, in the order in which they first occur. *)
Theorem split_log_to_sections_total_keys (log_data : list str) :
  exists d,
    Parser.split_log_to_sections log_data = Ok d
    /\ hd [] (PyDict.keys d) = lit "beginning"
    /\ section_keys d = lit "beginning" :: first_occurrences (headers log_data).
Proof.
  destruct (split_loop_keeps log_data [] Parser.split_init split_keeps_init)
    as [st [Hs [_ [_ [[v [d' Hd]] [_ Hkeys]]]]]].
  exists (Parser.log_by_sections st). unfold Parser.split_log_to_sections.
  rewrite Hs. cbn [bind app] in *. split; [reflexivity|].
  split; [now rewrite Hd | exact Hkeys].
Qed.

(** X2.  On every log the key ["final"] is present in the result exactly
    when some line has no marker, and then it holds the last such line, as
    it stands in the log (not stripped), every earlier one being lost. *)
Theorem split_log_to_sections_final (log_data : list str) :
  exists d,
    Parser.split_log_to_sections log_data = Ok d
    /\ PyDict.get d (lit "final") = option_map VStr (last_unmarked log_data).
Proof.
  destruct (split_loop_keeps log_data [] Parser.split_init split_keeps_init)
    as [st [Hs [_ [_ [_ [Hfin _]]]]]].
  exists (Parser.log_by_sections st). unfold Parser.split_log_to_sections.
  rewrite Hs. cbn [bind app] in *. auto.
Qed.

Lemma for_each_app {A S : Type} (body : S -> A -> result S) (a b : list A)
      (s : S) :
  for_each body (a ++ b) s = s' <- for_each body a s ;; for_each body b s'.
Proof.
  revert s. induction a as [|x a IH]; intros s; [reflexivity|].
  cbn [app for_each]. destruct (body s x); cbn [bind]; [apply IH | reflexivity].
Qed.

Lemma headers_cons (line : str) (log : list str) :
  headers (line :: log)
  = (if is_marked line && is_header (payload line) then [payload line] else [])
    ++ headers log.
Proof.
  unfold headers. cbn [filter]. destruct (is_marked line); [|reflexivity].
  cbn [map filter andb]. now destruct (is_header (payload line)).
Qed.

Lemma contents_cons (line : str) (log : list str) :
  contents (line :: log)
  = (if is_marked line && negb (is_header (payload line))
     then [payload line] else [])
    ++ contents log.
Proof.
  unfold contents. cbn [filter]. destruct (is_marked line); [|reflexivity].
  cbn [map filter andb]. now destruct (is_header (payload line)).
Qed.

Lemma split_loop_no_header (body : list str) (st : Parser.split_state)
      (l : list str) :
  Parser.section_name st <> lit "final" ->
  PyDict.get (Parser.log_by_sections st) (Parser.section_name st)
  = Some (VList l) ->
  headers body = [] ->
  exists st',
    for_each Parser.split_step body st = Ok st'
    /\ Parser.section_name st' = Parser.section_name st
    /\ PyDict.get (Parser.log_by_sections st') (Parser.section_name st)
       = Some (VList (l ++ contents body)).
Proof.
  revert st l. induction body as [|line body IH]; intros [name d] l.
  - cbn. intros _ H _. exists {| Parser.section_name := name;
                                 Parser.log_by_sections := d |}.
    now rewrite app_nil_r.
  - cbn [Parser.log_by_sections Parser.section_name]. intros Hnf Hget Hh.
    rewrite headers_cons in Hh. apply app_eq_nil in Hh. destruct Hh as [Hh Hb].
    rewrite contents_cons. cbn [for_each]. unfold Parser.split_step at 1.
    cbn [Parser.log_by_sections Parser.section_name].
    change (contains Parser.marker line) with (is_marked line).
    destruct (is_marked line) eqn:Hm; cbn [andb] in *.
    + rewrite (marked_payload line Hm). cbn [bind].
      change (strip (nth 1 (split Parser.marker line) [])) with (payload line).
      change (Re.search Parser.section_pattern (payload line))
        with (is_header (payload line)).
      destruct (is_header (payload line)); [discriminate|]. cbn [negb].
      unfold Parser.append_line. rewrite Hget. cbn [bind].
      destruct (IH {| Parser.section_name := name;
                      Parser.log_by_sections :=
                        PyDict.set d name (VList (l ++ [payload line])) |}
                   (l ++ [payload line]) Hnf (get_set_same _ _ _) Hb)
        as [st' [Hs [Hn Hg]]].
      exists st'. split; [exact Hs|]. split; [exact Hn|].
      cbn [Parser.section_name] in Hg. now rewrite <- app_assoc in Hg.
    + cbn [bind].
      destruct (IH {| Parser.section_name := name;
                      Parser.log_by_sections :=
                        PyDict.set d (lit "final") (VStr line) |}
                   l Hnf) as [st' [Hs [Hn Hg]]].
      * cbn [Parser.log_by_sections Parser.section_name].
        rewrite get_set_other; [exact Hget | congruence].
      * exact Hb.
      * exists st'. auto.
Qed.

(** X3.  In a log without any section header, every payload of a marked
    line is a content line of ["beginning"], in the order of the log. *)
Theorem log_without_header_fills_beginning (log_data : list str) :
  headers log_data = [] ->
  exists d,
    Parser.split_log_to_sections log_data = Ok d
    /\ PyDict.get d (lit "beginning") = Some (VList (contents log_data)).
Proof.
  intros Hh.
  destruct (split_loop_no_header log_data Parser.split_init []
              ltac:(discriminate) eq_refl Hh) as [st [Hs [_ Hg]]].
  exists (Parser.log_by_sections st). unfold Parser.split_log_to_sections.
  rewrite Hs. cbn [bind]. split; [reflexivity | exact Hg].
Qed.

Lemma log_without_header_fills_beginning_witness :
  let log := [lit "10:01 INFO ::: first"; lit "stray";
              lit "10:02 INFO ::: second"] in
  exists d,
    Parser.split_log_to_sections log = Ok d
    /\ PyDict.get d (lit "beginning") = Some (VList [lit "first"; lit "second"]).
Proof.
  intros log.
  exact (log_without_header_fills_beginning log eq_refl).
Defined.

Lemma split_after_last_header (pre : list str) (header_line : str)
      (body : list str) :
  is_marked header_line = true ->
  is_header (payload header_line) = true ->
  headers body = [] ->
  exists d,
    Parser.split_log_to_sections (pre ++ header_line :: body) = Ok d
    /\ PyDict.get d (payload header_line) = Some (VList (contents body)).
Proof.
  intros Hm Hh Hb.
  destruct (split_loop_keeps pre [] Parser.split_init split_keeps_init)
    as [st1 [Hs1 _]].
  unfold Parser.split_log_to_sections.
  rewrite for_each_app, Hs1. cbn [bind for_each].
  unfold Parser.split_step at 1.
  change (contains Parser.marker header_line) with (is_marked header_line).
  rewrite Hm, (marked_payload header_line Hm). cbn [bind].
  change (strip (nth 1 (split Parser.marker header_line) []))
    with (payload header_line).
  change (Re.search Parser.section_pattern (payload header_line))
    with (is_header (payload header_line)).
  rewrite Hh. cbn [bind].
  destruct (header_not_reserved _ Hh) as [Hf _].
  destruct (split_loop_no_header body
              {| Parser.section_name := payload header_line;
                 Parser.log_by_sections :=
                   PyDict.set (Parser.log_by_sections st1)
                     (payload header_line) (VList []) |}
              [] Hf (get_set_same _ _ _) Hb) as [st [Hs [_ Hg]]].
  exists (Parser.log_by_sections st). rewrite Hs. cbn [bind]. auto.
Qed.

(** X4.  The section of the last header of a log holds exactly the payloads
    of the marked lines that come after that header, whatever came before
    it, even an earlier section of the same name. *)
Theorem last_header_section_content (pre : list str) (header_line : str)
        (body : list str) :
  is_marked header_line = true ->
  is_header (payload header_line) = true ->
  headers body = [] ->
  exists d,
    Parser.split_log_to_sections (pre ++ header_line :: body) = Ok d
    /\ PyDict.get d (payload header_line) = Some (VList (contents body)).
Proof. apply split_after_last_header. Qed.

Lemma last_header_section_content_witness :
  let pre := [lit "10:02 INFO ::: {{ UPDATE SYSTEM }}";
              lit "10:02 INFO ::: update was NOT successful"] in
  let body := [lit "10:03 INFO ::: update was successful"] in
  exists d,
    Parser.split_log_to_sections
      (pre ++ lit "10:03 INFO ::: {{ UPDATE SYSTEM }}" :: body) = Ok d
    /\ PyDict.get d (lit "{{ UPDATE SYSTEM }}")
       = Some (VList [lit "update was successful"]).
Proof.
  intros pre body.
  exact (last_header_section_content pre
           (lit "10:03 INFO ::: {{ UPDATE SYSTEM }}") body
           eq_refl eq_refl eq_refl).
Defined.

(** ** Splitting at the first separator *)

Lemma prefixb_app_long (p u v : str) :
  length p <= length u -> prefixb p (u ++ v) = prefixb p u.
Proof.
  revert u. induction p as [|a p IH]; intros u H; [reflexivity|].
  destruct u as [|b u]; [cbn in H; lia|].
  cbn [app prefixb]. rewrite IH; [reflexivity | cbn in H; lia].
Qed.

Lemma prefixb_self_app (p s : str) : prefixb p (p ++ s) = true.
Proof. apply prefixb_spec. now exists s. Qed.

Lemma split_go_skip (sep x s cur : str) :
  split_go sep (length x) cur (x ++ s) = split_go sep 0 cur s.
Proof. induction x as [|c x IH]; [reflexivity | exact IH]. Qed.

Lemma split_go_none (sep cur s : str) :
  contains sep s = false -> split_go sep 0 cur s = [cur ++ s].
Proof.
  revert cur. induction s as [|c s IH]; intros cur H.
  - now rewrite app_nil_r.
  - cbn [contains] in H. apply orb_false_iff in H. destruct H as [Hp Hc].
    cbn [split_go]. rewrite Hp, (IH _ Hc). now rewrite <- app_assoc.
Qed.

Lemma split_go_first (sep a rest cur : str) :
  sep <> [] ->
  contains sep (a ++ removelast sep) = false ->
  split_go sep 0 cur (a ++ sep ++ rest) = (cur ++ a) :: split_go sep 0 [] rest.
Proof.
  intros Hsep. revert cur. induction a as [|x a IH]; intros cur H.
  - destruct sep as [|c sep']; [contradiction|].
    cbn [app split_go]. change (c :: sep' ++ rest) with ((c :: sep') ++ rest).
    rewrite prefixb_self_app. cbn [length Nat.sub]. rewrite Nat.sub_0_r.
    now rewrite split_go_skip, app_nil_r.
  - cbn [app contains] in H. apply orb_false_iff in H. destruct H as [Hp Hc].
    cbn [app split_go].
    assert (Hp' : prefixb sep (x :: a ++ sep ++ rest) = false).
    { destruct (exists_last Hsep) as [r [z Hr]].
      rewrite Hr in Hp |- *. rewrite removelast_last in Hp.
      rewrite <- Hp.
      replace (x :: a ++ (r ++ [z]) ++ rest)
        with ((x :: a ++ r) ++ z :: rest)
        by (cbn [app]; now rewrite <- !app_assoc).
      apply prefixb_app_long. cbn [length]. rewrite !length_app. cbn. lia. }
    rewrite Hp', (IH _ Hc). now rewrite <- app_assoc.
Qed.

Lemma contains_app_false_l (sep x y : str) :
  contains sep (x ++ y) = false -> contains sep x = false.
Proof.
  intros H. destruct (contains sep x) eqn:E; [|reflexivity].
  apply contains_spec in E. destruct E as [u [v ->]].
  assert (Ht : contains sep ((u ++ sep ++ v) ++ y) = true).
  { apply contains_spec. exists u, (v ++ y). now rewrite <- !app_assoc. }
  congruence.
Qed.

Lemma split_first_two (sep a rest : str) :
  sep <> [] ->
  contains sep (a ++ removelast sep) = false ->
  exists tail,
    split sep (a ++ sep ++ rest) = a :: nth 0 (split sep rest) [] :: tail.
Proof.
  intros Hsep H. unfold split. rewrite (split_go_first sep a rest [] Hsep H).
  pose proof (split_go_nonempty sep 0 [] rest) as Hne.
  destruct (split_go sep 0 [] rest) as [|p tail]; [contradiction|].
  now exists tail.
Qed.

(** ** What a marked line contributes *)

Lemma marked_content_line (a rest : str) :
  contains Parser.marker (a ++ lit " :::") = false ->
  is_header (strip (nth 0 (split Parser.marker rest) [])) = false ->
  Parser.split_log_to_sections [a ++ Parser.marker ++ rest]
  = Ok [(lit "beginning",
         VList [strip (nth 0 (split Parser.marker rest) [])])].
Proof.
  intros Ha Hh. unfold Parser.split_log_to_sections.
  cbn [for_each]. unfold Parser.split_step.
  assert (Hc : contains Parser.marker (a ++ Parser.marker ++ rest) = true)
    by (apply contains_spec; now exists a, rest).
  rewrite Hc.
  destruct (split_first_two Parser.marker a rest ltac:(discriminate) Ha)
    as [tail Hs].
  rewrite Hs. cbn [index nth_error bind].
  change (Re.search Parser.section_pattern ?x) with (is_header x).
  rewrite Hh. reflexivity.
Qed.

(** X5.  The content line a marked line gives is the text between its first
    and its second marker, stripped: what stands before the first marker and
    what follows a second one are both dropped. *)
Theorem marked_line_payload (a b c : str) :
  contains Parser.marker (a ++ lit " :::") = false ->
  contains Parser.marker (b ++ lit " :::") = false ->
  is_header (strip b) = false ->
  Parser.split_log_to_sections [a ++ Parser.marker ++ b]
  = Ok [(lit "beginning", VList [strip b])]
  /\ Parser.split_log_to_sections
       [a ++ Parser.marker ++ b ++ Parser.marker ++ c]
     = Ok [(lit "beginning", VList [strip b])].
Proof.
  intros Ha Hb Hh. split.
  - rewrite (marked_content_line a b Ha).
    + unfold split. rewrite split_go_none by (now apply contains_app_false_l in Hb).
      reflexivity.
    + unfold split. rewrite split_go_none by (now apply contains_app_false_l in Hb).
      exact Hh.
  - destruct (split_first_two Parser.marker b c ltac:(discriminate) Hb)
      as [tail Hs].
    rewrite (marked_content_line a _ Ha); rewrite Hs; [reflexivity | exact Hh].
Qed.

Lemma marked_line_payload_witness :
  Parser.split_log_to_sections
    [lit "[01-Aug-23 10:00:00 INFO]" ++ Parser.marker ++ lit "  Calculating  "]
  = Ok [(lit "beginning", VList [lit "Calculating"])]
  /\ Parser.split_log_to_sections
       [lit "[01-Aug-23 10:00:00 INFO]" ++ Parser.marker ++ lit "  Calculating  "
        ++ Parser.marker ++ lit "dependencies"]
     = Ok [(lit "beginning", VList [lit "Calculating"])].
Proof.
  exact (marked_line_payload (lit "[01-Aug-23 10:00:00 INFO]")
           (lit "  Calculating  ") (lit "dependencies")
           eq_refl eq_refl eq_refl).
Defined.

(** ** What the tokenizer keeps and what it drops *)

Lemma chunks_concat (s : str) (st : scan_state) (cur : str) :
  concat (chunks st cur s) = cur ++ s.
Proof.
  revert st cur. induction s as [|c s IH]; intros st cur.
  - cbn. destruct cur; cbn; now rewrite ?app_nil_r.
  - cbn [chunks]. cbv zeta.
    destruct (Ascii.eqb c " " && outside (scan_step st c)).
    + cbn [concat]. rewrite IH. now rewrite <- app_assoc.
    + rewrite IH. now rewrite <- app_assoc.
Qed.

Lemma visible_app (a b : str) : visible (a ++ b) = visible a ++ visible b.
Proof. apply filter_app. Qed.

Lemma visible_whitespace (ws : str) :
  forallb isspace ws = true -> visible ws = [].
Proof.
  induction ws as [|c ws IH]; [reflexivity|].
  cbn [forallb]. rewrite andb_true_iff. intros [Hc Hws].
  unfold visible. cbn [filter]. rewrite Hc. cbn [negb]. now apply IH.
Qed.

Lemma visible_strip (s : str) : visible (strip s) = visible s.
Proof.
  destruct (strip_decomp s) as [lead [trail [Hs [Hl Ht]]]].
  rewrite Hs at 2. rewrite !visible_app.
  now rewrite (visible_whitespace lead Hl), (visible_whitespace trail Ht),
    app_nil_r.
Qed.

Lemma visible_concat_strip (l : list str) :
  visible (concat (map strip l)) = visible (concat l).
Proof.
  induction l as [|x l IH]; [reflexivity|].
  cbn [map concat]. now rewrite !visible_app, IH, visible_strip.
Qed.

(** X6.  Tokenizing loses whitespace only: the characters of the tokens that
    are not whitespace are those of the line, in the same order. *)
Theorem tokens_keep_visible_characters (line : str) :
  visible (concat (_parse_package_string line)) = visible line.
Proof.
  rewrite tokens_chunks, visible_concat_strip.
  now rewrite (chunks_concat line scan0 []).
Qed.

Lemma rstrip_last (x : str) (d : ascii) :
  match rstrip x with
  | [] => True
  | _ => isspace (last (rstrip x) d) = false
  end.
Proof.
  induction x as [|c x IH]; [exact I|].
  cbn [rstrip]. destruct (rstrip x) as [|e r] eqn:E.
  - destruct (isspace c) eqn:Ec; [exact I | exact Ec].
  - exact IH.
Qed.

Lemma strip_trimmed (s : str) : trimmed (strip s).
Proof.
  unfold trimmed, strip. pose proof (lstrip_head s) as Hh.
  destruct (lstrip s) as [|c x] eqn:El; [exact I|].
  destruct (rstrip_head c x Hh) as [r Hr]. rewrite Hr. split; [exact Hh|].
  pose proof (rstrip_last (c :: x) c) as Hl. now rewrite Hr in Hl.
Qed.

(** X7.  No token starts or ends with a whitespace character. *)
Theorem tokens_are_trimmed (line : str) :
  Forall trimmed (_parse_package_string line).
Proof.
  rewrite tokens_chunks. apply Forall_forall. intros t Ht.
  apply in_map_iff in Ht. destruct Ht as [c [<- _]]. apply strip_trimmed.
Qed.

(** X8.  [_parse_package_string] returns no token for the empty string
    only: every other line has a first token, so the read of
    [split_package_string[0]] in [parse_update_details] cannot raise. *)
Theorem tokens_empty_iff (line : str) :
  _parse_package_string line = [] <-> line = [].
Proof.
  split.
  - intros H. destruct line as [|c line]; [reflexivity|].
    exfalso. now apply (tokens_nonempty (c :: line)).
  - now intros ->.
Qed.

(** ** Spans that stay in one token *)

Lemma nosep_deep (b : str) (st : scan_state) :
  (0 < snd st)%Z -> ~ In "]"%char b -> nosep st b = true.
Proof.
  revert st. induction b as [|c b IH]; intros [o d] Hd Hn; [reflexivity|].
  cbn [nosep]. cbv zeta. cbn [snd] in Hd.
  assert (Hc : c <> "]"%char) by (intros ->; apply Hn; now left).
  assert (Hd' : (0 < snd (scan_step (o, d) c))%Z).
  { unfold scan_step. cbn [fst snd].
    destruct (Ascii.eqb c dquote); cbn [snd]; [lia|].
    destruct (Ascii.eqb c "["); cbn [snd]; [lia|].
    destruct (Ascii.eqb_spec c "]"); [contradiction | cbn [snd]; lia]. }
  rewrite IH; [| exact Hd' | intros H; apply Hn; now right].
  rewrite andb_true_r. unfold outside.
  destruct (snd (scan_step (o, d) c) =? 0)%Z eqn:E.
  - apply Z.eqb_eq in E. lia.
  - now rewrite !andb_false_r.
Qed.

(** X9.  An opening bracket that is never closed takes the rest of the line
    into one token: when the text before it is empty or ends with a
    separator space, the tokens are those of that text followed by the
    single token made of the bracket and all that follows it. *)
Theorem unclosed_bracket_takes_the_rest (a b : str) :
  balanced a = true ->
  a = [] \/ (exists a', a = a' ++ [" "%char]) ->
  ~ In "]"%char b ->
  _parse_package_string (a ++ "["%char :: b)
  = _parse_package_string a ++ [strip ("["%char :: b)].
Proof.
  intros Hbal Ha Hb. rewrite !tokens_chunks.
  rewrite (chunks_at_boundary a).
  - rewrite map_app. f_equal.
    rewrite (chunks_nosep ("["%char :: b) scan0 []); [reflexivity|].
    cbn [nosep]. cbv zeta. rewrite nosep_deep; [reflexivity | cbn; lia | exact Hb].
  - destruct Ha as [-> | [a' ->]]; [now left|]. right. exists a'.
    split; [reflexivity|]. unfold balanced in Hbal.
    now rewrite scan_app in Hbal.
Qed.

Lemma unclosed_bracket_takes_the_rest_witness :
  _parse_package_string (lit "a b [ebuild   U  x y")
  = [lit "a"; lit "b"; lit "[ebuild   U  x y"].
Proof.
  exact (unclosed_bracket_takes_the_rest (lit "a b ") (lit "ebuild   U  x y")
           eq_refl (or_intror (ex_intro _ (lit "a b") eq_refl))
           ltac:(cbn; intuition discriminate)).
Defined.

Lemma scan_plain (body : str) (st : scan_state) :
  forallb (fun c => negb (Ascii.eqb c dquote || Ascii.eqb c "["
                          || Ascii.eqb c "]")) body = true ->
  scan st body = st.
Proof.
  revert st. induction body as [|c body IH]; intros st; [reflexivity|].
  cbn [forallb]. rewrite andb_true_iff, negb_true_iff, !orb_false_iff.
  intros [[[Hq Ho] Hc] Hb]. cbn [scan fold_left]. unfold scan_step at 2.
  rewrite Hq, Ho, Hc. now apply IH.
Qed.

Lemma plain_no_close (body : str) :
  forallb (fun c => negb (Ascii.eqb c dquote || Ascii.eqb c "["
                          || Ascii.eqb c "]")) body = true ->
  ~ In "]"%char body.
Proof.
  intros H Hin. rewrite forallb_forall in H. specialize (H _ Hin).
  now rewrite orb_true_r in H.
Qed.

Lemma chunks_nosep_then_space (p : str) (st : scan_state) (cur : str) :
  nosep st p = true -> outside (scan st p) = true ->
  chunks st cur (p ++ [" "%char]) = [cur ++ p ++ [" "%char]].
Proof.
  revert st cur. induction p as [|c p IH]; intros st cur Hn Ho.
  - cbn in Ho. cbn [app chunks]. cbv zeta. rewrite scan_step_space, Ho.
    reflexivity.
  - cbn [nosep] in Hn. cbv zeta in Hn. apply andb_true_iff in Hn.
    destruct Hn as [Hc Hn]. apply negb_true_iff in Hc.
    cbn [app chunks]. cbv zeta. rewrite Hc.
    rewrite (IH _ _ Hn Ho). now rewrite <- app_assoc.
Qed.

Lemma rstrip_keep (x : str) (c : ascii) :
  isspace c = false -> rstrip (x ++ [c]) = x ++ [c].
Proof.
  intros Hc. induction x as [|y x IH].
  - cbn. now rewrite Hc.
  - cbn [app rstrip]. rewrite IH. now destruct (x ++ [c]) eqn:E;
      [apply app_eq_nil in E; destruct E; discriminate|].
Qed.

(** X10.  A bracketed text with no quote and no bracket inside it, followed
    by a space, is the first token whole, spaces included, as the status
    marker [[ebuild     U  ]] is; the other tokens are those of the rest of
    the line. *)
Theorem bracketed_prefix_is_first_token (body rest : str) :
  forallb (fun c => negb (Ascii.eqb c dquote || Ascii.eqb c "["
                          || Ascii.eqb c "]")) body = true ->
  _parse_package_string ("["%char :: body ++ "]"%char :: " "%char :: rest)
  = ("["%char :: body ++ ["]"%char]) :: _parse_package_string rest.
Proof.
  intros Hb. rewrite !tokens_chunks.
  set (p := "["%char :: body ++ ["]"%char]).
  assert (Hline : "["%char :: body ++ "]"%char :: " "%char :: rest
                  = p ++ " "%char :: rest).
  { unfold p. cbn [app]. now rewrite <- app_assoc. }
  assert (Hscan : scan scan0 p = scan0).
  { unfold p. change ("["%char :: body ++ ["]"%char])
      with (["["%char] ++ body ++ ["]"%char]).
    rewrite !scan_app. now rewrite (scan_plain body _ Hb). }
  assert (Hnosep : nosep scan0 p = true).
  { unfold p. cbn [nosep]. cbv zeta. cbn [Ascii.eqb andb negb].
    rewrite nosep_app, nosep_deep;
      [| cbn; lia | now apply plain_no_close].
    rewrite (scan_plain body _ Hb). reflexivity. }
  rewrite Hline, chunks_app_sep by now rewrite Hscan.
  rewrite (chunks_nosep_then_space p scan0 [] Hnosep) by now rewrite Hscan.
  cbn [app map]. f_equal.
  rewrite strip_app_space by reflexivity.
  unfold strip, p. cbn [lstrip isspace]. cbn.
  change ("["%char :: body ++ ["]"%char])
    with (("["%char :: body) ++ ["]"%char]).
  now apply rstrip_keep.
Qed.

Lemma bracketed_prefix_is_first_token_witness :
  _parse_package_string (lit "[ebuild     U  ] sys-devel/gnuconfig-20230731::gentoo")
  = [lit "[ebuild     U  ]"; lit "sys-devel/gnuconfig-20230731::gentoo"].
Proof.
  exact (bracketed_prefix_is_first_token (lit "ebuild     U  ")
           (lit "sys-devel/gnuconfig-20230731::gentoo") eq_refl).
Defined.

(** ** The fields of the records *)

Lemma attr_step_other_fields (p p' : PackageInfo) (var : str) :
  attr_step p var = Ok p' ->
  new_version p' = new_version p /\ old_version p' = old_version p
  /\ update_status p' = update_status p /\ repo p' = repo p.
Proof.
  unfold attr_step. destruct (contains _ var).
  - destruct (index (split (lit "=") var) 0) as [key|]; [|discriminate].
    destruct (index (split (lit "=") var) 1) as [val|]; [|discriminate].
    cbn [bind]. intros [= <-]. now cbn.
  - intros [= <-]. auto.
Qed.

Lemma attr_loop_other_fields (l : list str) (p p' : PackageInfo) :
  for_each attr_step l p = Ok p' ->
  new_version p' = new_version p /\ old_version p' = old_version p
  /\ update_status p' = update_status p /\ repo p' = repo p.
Proof.
  revert p. induction l as [|var l IH]; intros p; cbn [for_each].
  - intros [= <-]. auto.
  - destruct (attr_step p var) as [q|] eqn:E; [|discriminate]. cbn [bind].
    intros H. apply IH in H. apply attr_step_other_fields in E.
    destruct H as [-> [-> [-> ->]]], E as [-> [-> [-> ->]]]. auto.
Qed.

Lemma ebuild_fields (tokens : list str) (p : PackageInfo) :
  _parse_package_ebuild tokens = Ok p ->
  let t1 := nth 1 tokens [] in
  let name_newversion := nth 0 (split (lit "::") t1) [] in
  let raw_name := fold_left name_step (split (lit "-") name_newversion) [] in
  package_type p = lit "ebuild"
  /\ package_name p = slice_to_last raw_name
  /\ new_version p = Some (replace raw_name [] name_newversion)
  /\ old_version p
     = Some (slice_from1 (nth 0 (split (lit "::") (nth 2 tokens [])) []))
  /\ update_status p = _determine_update_status (nth 0 tokens [])
  /\ repo p = Some (nth 1 (split (lit "::") t1) []).
Proof.
  unfold _parse_package_ebuild.
  destruct (index tokens 0) as [t0|] eqn:E0; [|discriminate]. cbn [bind].
  destruct (index tokens 1) as [t1|] eqn:E1; [|discriminate]. cbn [bind].
  destruct (index (split (lit "::") t1) 1) as [r|] eqn:Er; [|discriminate].
  cbn [bind].
  destruct (index (split (lit "::") t1) 0) as [nn|] eqn:En; [|discriminate].
  cbn [bind].
  destruct (index tokens 2) as [t2|] eqn:E2; [|discriminate]. cbn [bind].
  destruct (index (split (lit "::") t2) 0) as [o|] eqn:Eo; [|discriminate].
  cbn [bind]. intros H. cbv zeta.
  pose proof (attr_loop_fields _ _ _ H) as [Ht [Hn _]].
  pose proof (attr_loop_other_fields _ _ _ H) as [Hnv [Hov [Hus Hr]]].
  cbn in Ht, Hn, Hnv, Hov, Hus, Hr.
  rewrite (index_nth tokens 0 t0 [] E0), (index_nth tokens 1 t1 [] E1),
    (index_nth tokens 2 t2 [] E2).
  rewrite (index_nth _ 1 r [] Er), (index_nth _ 0 nn [] En),
    (index_nth _ 0 o [] Eo).
  repeat split; assumption.
Qed.

Lemma status_is_one_of_four (s : str) :
  In (_determine_update_status s)
     [lit "NewPackage"; lit "ReEmerge"; lit "Update"; lit "Undefined"].
Proof.
  unfold _determine_update_status.
  destruct (contains (lit "N") s); [now left|].
  destruct (contains (lit "R") s); [right; now left|].
  destruct (contains (lit "U") s); [right; right; now left|].
  right; right; right; now left.
Qed.

Lemma dispatch_shape (tokens : list str) (p : PackageInfo) :
  dispatch tokens = Ok (Some p) ->
  record_shape p /\ variant_of (nth 0 tokens []) = Some (package_type p).
Proof.
  unfold dispatch, variant_of.
  destruct (index tokens 0) as [t0|] eqn:E0; [|discriminate]. cbn [bind].
  rewrite (index_nth tokens 0 t0 [] E0).
  destruct (contains (lit "ebuild") t0).
  { destruct (_parse_package_ebuild tokens) as [q|] eqn:E; [|discriminate].
    cbn [bind]. intros [= <-].
    destruct (ebuild_fields tokens q E) as [Ht [_ [Hnv [Hov [Hus Hr]]]]].
    split; [|now rewrite Ht]. left.
    rewrite Ht, Hnv, Hov, Hus, Hr.
    repeat split; try discriminate. apply status_is_one_of_four. }
  destruct (contains (lit "blocks") t0).
  { unfold _parse_package_blocks.
    destruct (index tokens 1) as [t1|]; [|discriminate]. cbn [bind].
    rewrite E0. cbn [bind].
    destruct (index_last tokens) as [l|]; [|discriminate]. cbn [bind].
    intros [= <-]. split; [|reflexivity]. right. left. cbn. eauto 10. }
  destruct (contains (lit "uninstall") t0); [|discriminate].
  unfold _parse_package_uninstall.
  destruct (index tokens 1) as [t1|]; [|discriminate]. cbn [bind].
  destruct (index (split (lit "::") t1) 0) as [n|]; [|discriminate].
  cbn [bind].
  destruct (index (split (lit "::") t1) 1) as [r|]; [|discriminate].
  cbn [bind]. rewrite E0. cbn [bind].
  intros [= <-]. split; [|reflexivity]. right. right. cbn.
  repeat split. discriminate.
Qed.

Lemma details_loop_shape (lines : list str) (packages recs : list PackageInfo) :
  Forall record_shape packages ->
  for_each details_step lines packages = Ok recs ->
  Forall record_shape recs.
Proof.
  revert packages. induction lines as [|line lines IH]; intros packages Hp.
  - cbn. now intros [= <-].
  - cbn [for_each]. unfold details_step at 1.
    destruct (dispatch (_parse_package_string line)) as [[q|]|] eqn:E;
      cbn [bind]; try discriminate.
    + apply IH. apply Forall_app. split; [exact Hp|].
      constructor; [|constructor]. now apply dispatch_shape in E.
    + now apply IH.
Qed.

(** X11.  Every record [parse_update_details] returns has the shape of its
    kind: an [ebuild] record has one of the four statuses [NewPackage],
    [ReEmerge], [Update], [Undefined] and a new version, an old version and
    a repository; a [blocks] record has none of the three and the single
    attribute [blocked_package]; an [uninstall] record has a repository, no
    version, and the single attribute [uninstalled_package], equal to its
    name. *)
Theorem parse_update_details_record_shapes (section_content : list str)
        (packages : list PackageInfo) :
  parse_update_details section_content = Ok packages ->
  Forall record_shape packages.
Proof.
  unfold parse_update_details. apply details_loop_shape. constructor.
Qed.

Lemma parse_update_details_record_shapes_witness :
  exists packages,
    parse_update_details
      [scenario_A; lit "[uninstall     ] perl-core/Compress-Raw-Zlib-2.202.0::gentoo"]
    = Ok packages
    /\ length packages = 2 /\ Forall record_shape packages.
Proof.
  eexists. split; [vm_compute; reflexivity|]. split; [reflexivity|].
  apply (parse_update_details_record_shapes
           [scenario_A;
            lit "[uninstall     ] perl-core/Compress-Raw-Zlib-2.202.0::gentoo"]).
  vm_compute. reflexivity.
Defined.

(** X12.  The kind of a record follows the first token of its line, the
    first test that holds deciding: a line gives at most one record, of kind
    [ebuild] when the token has ["ebuild"], else [blocks] when it has
    ["blocks"], else [uninstall]. *)
Theorem record_kind_follows_first_token (line : str)
        (packages : list PackageInfo) :
  parse_update_details [line] = Ok packages ->
  packages = []
  \/ exists p,
      packages = [p]
      /\ variant_of (nth 0 (_parse_package_string line) [])
         = Some (package_type p).
Proof.
  unfold parse_update_details. cbn [filter].
  destruct (is_package_string line); cbn [for_each]; [|intros [= <-]; now left].
  unfold details_step.
  destruct (dispatch (_parse_package_string line)) as [[q|]|] eqn:E;
    cbn [bind]; try discriminate.
  - intros [= <-]. right. exists q. split; [reflexivity|].
    now apply dispatch_shape in E.
  - intros [= <-]. now left.
Qed.

Lemma record_kind_follows_first_token_witness :
  exists p,
    parse_update_details [scenario_A] = Ok [p]
    /\ variant_of (nth 0 (_parse_package_string scenario_A) [])
       = Some (package_type p).
Proof.
  eexists. split; [vm_compute; reflexivity|].
  match goal with
  | |- variant_of _ = Some (package_type ?p) =>
      destruct (record_kind_follows_first_token scenario_A [p])
        as [H | [q [Hq Hv]]]
  end.
  - vm_compute. reflexivity.
  - discriminate H.
  - injection Hq as <-. exact Hv.
Defined.

(** ** [replace], [split] and [join] *)

Lemma prefixb_length (p s : str) :
  prefixb p s = true -> length p <= length s.
Proof.
  intros H. apply prefixb_spec in H. destruct H as [t ->].
  rewrite length_app. lia.
Qed.

Lemma contains_too_long (old s : str) :
  length s < length old -> contains old s = false.
Proof.
  induction s as [|c s IH]; intros H.
  - cbn. destruct old; [cbn in H; lia | reflexivity].
  - cbn [contains]. rewrite IH by (cbn in H; lia).
    destruct (prefixb old (c :: s)) eqn:E; [|reflexivity].
    apply prefixb_length in E. lia.
Qed.

Lemma replace_go_skip (old new x s : str) :
  replace_go old new (length x) (x ++ s) = replace_go old new 0 s.
Proof. induction x as [|c x IH]; [reflexivity | exact IH]. Qed.

Lemma replace_go_none (old new s : str) :
  contains old s = false -> replace_go old new 0 s = s.
Proof.
  induction s as [|c s IH]; intros H; [reflexivity|].
  cbn [contains] in H. apply orb_false_iff in H. destruct H as [Hp Hc].
  cbn [replace_go]. rewrite Hp. now rewrite IH.
Qed.

Lemma replace_prefix_once (old s : str) :
  old <> [] -> contains old s = false -> replace old [] (old ++ s) = s.
Proof.
  intros Ho Hc. unfold replace. destruct old as [|c old']; [contradiction|].
  cbn [app replace_go].
  change (c :: old' ++ s) with ((c :: old') ++ s). rewrite prefixb_self_app.
  cbn [length Nat.sub app]. rewrite Nat.sub_0_r, replace_go_skip.
  now apply replace_go_none.
Qed.

Lemma replace_absent (old s : str) :
  old <> [] -> contains old s = false -> replace old [] s = s.
Proof.
  intros Ho Hc. unfold replace. destruct old; [contradiction|].
  now apply replace_go_none.
Qed.

Lemma join_split_char (c : ascii) (s cur : str) :
  join [c] (split_go [c] 0 cur s) = cur ++ s.
Proof.
  revert cur. induction s as [|x s IH]; intros cur.
  - cbn. now rewrite app_nil_r.
  - cbn [split_go prefixb length Nat.sub]. rewrite andb_true_r.
    destruct (Ascii.eqb_spec c x) as [->|Hn].
    + pose proof (split_go_nonempty [x] 0 [] s) as Hne.
      specialize (IH []).
      destruct (split_go [x] 0 [] s) as [|p l]; [contradiction|].
      change (join [x] (cur :: p :: l)) with (cur ++ [x] ++ join [x] (p :: l)).
      now rewrite IH.
    + rewrite IH. now rewrite <- app_assoc.
Qed.

Lemma join_app (sep : str) (a b : list str) :
  a <> [] -> b <> [] -> join sep (a ++ b) = join sep a ++ sep ++ join sep b.
Proof.
  intros Ha Hb. induction a as [|x [|y a] IH]; [contradiction| |].
  - cbn [app]. destruct b; [contradiction | reflexivity].
  - change (join sep ((x :: y :: a) ++ b))
      with (x ++ sep ++ join sep ((y :: a) ++ b)).
    rewrite IH by discriminate.
    change (join sep (x :: y :: a)) with (x ++ sep ++ join sep (y :: a)).
    now rewrite <- !app_assoc.
Qed.

Lemma filter_all {A : Type} (f : A -> bool) (l : list A) :
  forallb f l = true -> filter f l = l.
Proof.
  induction l as [|x l IH]; [reflexivity|].
  cbn [forallb filter]. rewrite andb_true_iff. intros [-> H].
  now rewrite IH.
Qed.

Lemma filter_negb_all {A : Type} (f : A -> bool) (l : list A) :
  forallb f l = true -> filter (fun x => negb (f x)) l = [].
Proof.
  induction l as [|x l IH]; [reflexivity|].
  cbn [forallb filter]. rewrite andb_true_iff.
  intros [-> H]. now apply IH.
Qed.

(** ** The name and the version of an ebuild record *)

(** X13.  When no hyphen-delimited part of the name-version text looks like
    a version, the ebuild builder returns that whole text both as the name
    and as the new version. *)
Theorem ebuild_without_version_part (tokens : list str) (p : PackageInfo) :
  _parse_package_ebuild tokens = Ok p ->
  forallb (fun q => negb (version_part q)) (name_parts (nth 1 tokens []))
  = true ->
  package_name p = nth 0 (split (lit "::") (nth 1 tokens [])) []
  /\ new_version p = Some (nth 0 (split (lit "::") (nth 1 tokens [])) []).
Proof.
  intros H Hall. apply ebuild_fields in H. cbv zeta in H.
  destruct H as [_ [Hn [Hv _]]]. unfold name_parts in Hall.
  set (nn := nth 0 (split (lit "::") (nth 1 tokens [])) []) in *.
  assert (Hraw : fold_left name_step (split (lit "-") nn) [] = nn ++ lit "-").
  { rewrite name_loop, (filter_all _ _ Hall). cbn [app].
    rewrite concat_sep_join by apply split_go_nonempty.
    unfold split. change (lit "-") with ["-"%char].
    now rewrite join_split_char. }
  rewrite Hraw in Hn, Hv. split.
  - rewrite Hn. unfold slice_to_last. change (lit "-") with ["-"%char].
    apply removelast_last.
  - rewrite Hv. f_equal. apply replace_absent.
    + now destruct nn.
    + apply contains_too_long. rewrite length_app. cbn. lia.
Qed.

Lemma ebuild_without_version_part_witness :
  exists p,
    _parse_package_ebuild
      [lit "[ebuild   R   ]"; lit "sys-devel/gcc::gentoo"; lit "[::gentoo]"]
    = Ok p
    /\ package_name p = lit "sys-devel/gcc"
    /\ new_version p = Some (lit "sys-devel/gcc").
Proof.
  eexists. split; [vm_compute; reflexivity|].
  match goal with
  | |- package_name ?p = _ /\ _ =>
      apply (ebuild_without_version_part
               [lit "[ebuild   R   ]"; lit "sys-devel/gcc::gentoo";
                lit "[::gentoo]"] p)
  end; vm_compute; reflexivity.
Defined.

(** X14.  When the parts kept for the name all come before the parts that
    look like a version, and the name followed by a hyphen does not occur
    inside the version text, the ebuild builder splits the name-version text
    exactly there: the name is the first group joined by hyphens, the new
    version the second, and name, hyphen and version give the text back. *)
Theorem ebuild_name_version_roundtrip (tokens : list str) (p : PackageInfo)
        (names versions : list str) :
  _parse_package_ebuild tokens = Ok p ->
  name_parts (nth 1 tokens []) = names ++ versions ->
  names <> [] -> versions <> [] ->
  forallb (fun q => negb (version_part q)) names = true ->
  forallb version_part versions = true ->
  contains (join (lit "-") names ++ lit "-") (join (lit "-") versions) = false ->
  package_name p = join (lit "-") names
  /\ new_version p = Some (join (lit "-") versions)
  /\ nth 0 (split (lit "::") (nth 1 tokens [])) []
     = package_name p ++ lit "-" ++ join (lit "-") versions.
Proof.
  intros H Hparts Hn Hv Hnames Hvers Hocc.
  apply ebuild_fields in H. cbv zeta in H.
  destruct H as [_ [Hname [Hnew _]]]. unfold name_parts in Hparts.
  set (nn := nth 0 (split (lit "::") (nth 1 tokens [])) []) in *.
  assert (Hnn : nn = join (lit "-") names ++ lit "-" ++ join (lit "-") versions).
  { rewrite <- (join_app (lit "-") names versions Hn Hv), <- Hparts.
    unfold split. change (lit "-") with ["-"%char].
    now rewrite join_split_char. }
  assert (Hraw : fold_left name_step (split (lit "-") nn) []
                 = join (lit "-") names ++ lit "-").
  { rewrite name_loop, Hparts, filter_app, (filter_all _ _ Hnames).
    rewrite (filter_negb_all version_part versions Hvers).
    rewrite app_nil_r. cbn [app]. now apply concat_sep_join. }
  rewrite Hraw in Hname, Hnew.
  assert (Hpn : package_name p = join (lit "-") names).
  { rewrite Hname. unfold slice_to_last. change (lit "-") with ["-"%char].
    apply removelast_last. }
  split; [exact Hpn|]. split.
  - rewrite Hnew, Hnn, app_assoc. f_equal. apply replace_prefix_once.
    + now destruct (join (lit "-") names).
    + exact Hocc.
  - now rewrite Hpn.
Qed.

Lemma ebuild_name_version_roundtrip_witness :
  exists p,
    _parse_package_ebuild
      [lit "[ebuild     U  ]"; lit "app-arch/p7zip-17.05-r1::gentoo";
       lit "[17.04::gentoo]"] = Ok p
    /\ package_name p = lit "app-arch/p7zip"
    /\ new_version p = Some (lit "17.05-r1").
Proof.
  eexists. split; [vm_compute; reflexivity|].
  match goal with
  | |- package_name ?p = _ /\ _ =>
      destruct (ebuild_name_version_roundtrip
                  [lit "[ebuild     U  ]"; lit "app-arch/p7zip-17.05-r1::gentoo";
                   lit "[17.04::gentoo]"] p
                  [lit "app"; lit "arch/p7zip"] [lit "17.05"; lit "r1"])
        as [Hn [Hv _]]
  end; try (vm_compute; reflexivity); try discriminate.
  split; [exact Hn | exact Hv].
Defined.

(** ** Repository and old version *)

Lemma split_one_separator (sep a r : str) :
  sep <> [] ->
  contains sep (a ++ removelast sep) = false -> contains sep r = false ->
  split sep (a ++ sep ++ r) = [a; r].
Proof.
  intros Hsep Ha Hr. unfold split.
  rewrite (split_go_first sep a r [] Hsep Ha).
  now rewrite (split_go_none sep [] r Hr).
Qed.

(** X15.  On a token [name::repo] with a single ["::"], the uninstall
    builder returns the record with that name and that repository, the raw
    first token as its status, no version, and the name again under
    [uninstalled_package]: name, ["::"] and repository give the token
    back. *)
Theorem uninstall_record_of_token (t0 name repository : str)
        (rest : list str) :
  contains (lit "::") (name ++ lit ":") = false ->
  contains (lit "::") repository = false ->
  _parse_package_uninstall (t0 :: (name ++ lit "::" ++ repository) :: rest)
  = Ok {| package_type := lit "uninstall";
          package_name := name;
          new_version := None;
          old_version := None;
          update_status := t0;
          repo := Some repository;
          attributes := [(lit "uninstalled_package", VStr name)] |}.
Proof.
  intros Hn Hr. unfold _parse_package_uninstall. cbn [index nth_error bind].
  rewrite (split_one_separator (lit "::") name repository
             ltac:(discriminate) Hn Hr).
  reflexivity.
Qed.

Lemma uninstall_record_of_token_witness :
  _parse_package_uninstall
    [lit "[uninstall     ]"; lit "perl-core/Compress-Raw-Zlib-2.202.0::gentoo"]
  = Ok {| package_type := lit "uninstall";
          package_name := lit "perl-core/Compress-Raw-Zlib-2.202.0";
          new_version := None;
          old_version := None;
          update_status := lit "[uninstall     ]";
          repo := Some (lit "gentoo");
          attributes :=
            [(lit "uninstalled_package",
              VStr (lit "perl-core/Compress-Raw-Zlib-2.202.0"))] |}.
Proof.
  exact (uninstall_record_of_token (lit "[uninstall     ]")
           (lit "perl-core/Compress-Raw-Zlib-2.202.0") (lit "gentoo") []
           eq_refl eq_refl).
Defined.

(** X16.  On tokens [name-version::repo] and [[old::more]] the ebuild
    builder takes the repository to be the text after the ["::"] of the
    second token and the old version to be the text of the third token
    before its ["::"] without its first character, whatever that character
    is. *)
Theorem ebuild_repo_and_old_version (t0 name_version repository : str)
        (c : ascii) (old more : str) (rest : list str) :
  contains (lit "::") (name_version ++ lit ":") = false ->
  contains (lit "::") repository = false ->
  contains (lit "::") (c :: old ++ lit ":") = false ->
  exists p,
    _parse_package_ebuild
      (t0 :: (name_version ++ lit "::" ++ repository)
          :: (c :: old ++ lit "::" ++ more) :: rest) = Ok p
    /\ repo p = Some repository
    /\ old_version p = Some old.
Proof.
  intros Hn Hr Ho.
  set (tokens := t0 :: (name_version ++ lit "::" ++ repository)
                    :: (c :: old ++ lit "::" ++ more) :: rest).
  pose proof (ebuild_raises tokens) as H. unfold tokens in H.
  assert (Hc : contains (lit "::") (name_version ++ lit "::" ++ repository)
               = true)
    by (apply contains_spec; now exists name_version, repository).
  rewrite Hc in H. destruct H as [p Hp]. exists p. split; [exact Hp|].
  apply ebuild_fields in Hp. cbv zeta in Hp.
  destruct Hp as [_ [_ [_ [Hov [_ Hrepo]]]]]. cbn [nth] in Hov, Hrepo.
  rewrite (split_one_separator (lit "::") name_version repository
             ltac:(discriminate) Hn Hr) in Hrepo.
  destruct (split_first_two (lit "::") (c :: old) more ltac:(discriminate) Ho)
    as [tail Hs].
  change (c :: old ++ lit "::" ++ more) with ((c :: old) ++ lit "::" ++ more)
    in Hov.
  rewrite Hs in Hov. split; [exact Hrepo | exact Hov].
Qed.

Lemma ebuild_repo_and_old_version_witness :
  exists p,
    _parse_package_ebuild
      [lit "[ebuild     U  ]"; lit "sys-devel/gnuconfig-20230731::gentoo";
       lit "[20230121::gentoo]"; lit "72"; lit "KiB"] = Ok p
    /\ repo p = Some (lit "gentoo")
    /\ old_version p = Some (lit "20230121").
Proof.
  exact (ebuild_repo_and_old_version (lit "[ebuild     U  ]")
           (lit "sys-devel/gnuconfig-20230731") (lit "gentoo")
           "["%char (lit "20230121") (lit "gentoo]") [lit "72"; lit "KiB"]
           eq_refl eq_refl eq_refl).
Defined.

(** ** [parse_update_details] on several lists of lines *)

Lemma sequence_app {A : Type} (x y : list (result A)) :
  sequence (x ++ y)
  = rx <- sequence x ;; ry <- sequence y ;; Ok (rx ++ ry).
Proof.
  induction x as [|m x IH].
  - cbn. now destruct (sequence y).
  - cbn [app sequence]. destruct m as [a|e]; cbn [bind]; [|reflexivity].
    rewrite IH. destruct (sequence x); cbn [bind]; [|reflexivity].
    now destruct (sequence y).
Qed.

Lemma sequence_length {A : Type} (l : list (result A)) (r : list A) :
  sequence l = Ok r -> length r = length l.
Proof.
  revert r. induction l as [|m l IH]; intros r.
  - cbn. now intros [= <-].
  - cbn [sequence]. destruct m as [a|]; cbn [bind]; [|discriminate].
    destruct (sequence l) as [r'|]; cbn [bind]; [|discriminate].
    intros [= <-]. cbn. now rewrite (IH r' eq_refl).
Qed.

Lemma parse_as_sequence (lines : list str) :
  parse_update_details lines
  = sequence
      (map build_record
         (filter (fun line => is_package_string line && has_variant line)
            lines)).
Proof.
  unfold parse_update_details. rewrite details_loop_sequence.
  now destruct (sequence _).
Qed.

(** X17.  Parsing two lists of lines one after the other is parsing each and
    appending the records; if the first list makes the parser raise, so does
    the whole, with the same exception. *)
Theorem parse_update_details_app (first second : list str) :
  parse_update_details (first ++ second)
  = r1 <- parse_update_details first ;;
    r2 <- parse_update_details second ;;
    Ok (r1 ++ r2).
Proof.
  rewrite !parse_as_sequence, filter_app, map_app. apply sequence_app.
Qed.

(** X18.  When [parse_update_details] returns, it returns one record for
    each selected line whose first token names a variant, hence never more
    records than lines. *)
Theorem parse_update_details_count (section_content : list str)
        (packages : list PackageInfo) :
  parse_update_details section_content = Ok packages ->
  length packages
  = length (filter (fun line => is_package_string line && has_variant line)
              section_content)
  /\ length packages <= length section_content.
Proof.
  rewrite parse_as_sequence. intros H. apply sequence_length in H.
  rewrite length_map in H. split; [exact H|].
  rewrite H. apply filter_length_le.
Qed.

Lemma parse_update_details_count_witness :
  exists packages,
    parse_update_details
      [lit "Calculating dependencies"; scenario_A; lit "[ ok ]";
       lit "[nomerge       ] sys-libs/glibc-2.37::gentoo"] = Ok packages
    /\ length packages = 1.
Proof.
  eexists. split; [vm_compute; reflexivity|].
  match goal with
  | |- length ?l = _ =>
      destruct (parse_update_details_count
                  [lit "Calculating dependencies"; scenario_A; lit "[ ok ]";
                   lit "[nomerge       ] sys-libs/glibc-2.37::gentoo"] l)
        as [H _]
  end; [vm_compute; reflexivity | exact H].
Defined.

(** ** The report on the sections *)

Lemma index_raises_index_error {A : Type} (l : list A) (i : nat) (e : exn) :
  index l i = Raise e -> e = IndexError.
Proof.
  unfold index. destruct (nth_error l i); [discriminate | now intros [= <-]].
Qed.

Lemma update_system_lines (section_content : value) (lines : list str) :
  parse_update_system_section section_content = Ok lines ->
  1 <= length lines <= 2.
Proof.
  unfold parse_update_system_section.
  destruct (value_index section_content 1) as [second|]; [|discriminate].
  cbn [bind].
  destruct (index (split_whitespace second) 1) as [ut|]; [|discriminate].
  cbn [bind].
  destruct (str_eqb ut (lit "@world")).
  { destruct (value_contains _ section_content); intros [= <-]; cbn; lia. }
  destruct (str_eqb ut (lit "GLSA")).
  { destruct (value_contains _ section_content); intros [= <-]; cbn; lia. }
  intros [= <-]. cbn. lia.
Qed.

Lemma update_system_raises (section_content : value) (e : exn) :
  parse_update_system_section section_content = Raise e -> e = IndexError.
Proof.
  unfold parse_update_system_section.
  destruct (value_index section_content 1) as [second|e1] eqn:E1.
  - cbn [bind].
    destruct (index (split_whitespace second) 1) as [ut|e2] eqn:E2.
    + cbn [bind]. destruct (str_eqb ut (lit "@world")).
      { destruct (value_contains _ section_content); discriminate. }
      destruct (str_eqb ut (lit "GLSA")).
      { destruct (value_contains _ section_content); discriminate. }
      discriminate.
    + cbn [bind]. intros [= <-]. now apply index_raises_index_error in E2.
  - cbn [bind]. intros [= <-]. destruct section_content as [s|l].
    + cbn in E1. destruct (index s 1) eqn:E; [discriminate|].
      cbn in E1. injection E1 as <-. now apply index_raises_index_error in E.
    + now apply index_raises_index_error in E1.
Qed.

(** X19.  On a section with its list of lines,
    [parse_update_system_section] raises [IndexError] exactly when the
    section has fewer than two lines or its second line has fewer than two
    words; otherwise it prints one line, or two when the second word is
    neither [@world] nor [GLSA]. *)
Theorem parse_update_system_section_raises (l : list str) :
  if (2 <=? length l) && (2 <=? length (split_whitespace (nth 1 l [])))
  then exists lines,
      parse_update_system_section (VList l) = Ok lines
      /\ 1 <= length lines <= 2
  else parse_update_system_section (VList l) = Raise IndexError.
Proof.
  destruct (2 <=? length l) eqn:El; cbn [andb].
  - apply Nat.leb_le in El.
    destruct (index_in_range l 1 ltac:(lia)) as [second Hs].
    rewrite (index_nth l 1 second [] Hs).
    destruct (2 <=? length (split_whitespace second)) eqn:Ew.
    + apply Nat.leb_le in Ew.
      destruct (index_in_range (split_whitespace second) 1 ltac:(lia))
        as [ut Hu].
      destruct (parse_update_system_section (VList l)) as [lines|e] eqn:E.
      * exists lines. split; [reflexivity|]. now apply update_system_lines in E.
      * exfalso. unfold parse_update_system_section in E.
        cbn [value_index] in E. rewrite Hs in E. cbn [bind] in E.
        rewrite Hu in E. cbn [bind] in E.
        destruct (str_eqb ut (lit "@world")).
        { destruct (value_contains _ (VList l)); discriminate. }
        destruct (str_eqb ut (lit "GLSA")).
        { destruct (value_contains _ (VList l)); discriminate. }
        discriminate.
    + apply Nat.leb_gt in Ew. unfold parse_update_system_section.
      cbn [value_index]. rewrite Hs. cbn [bind].
      now rewrite index_out_of_range by lia.
  - apply Nat.leb_gt in El. unfold parse_update_system_section.
    cbn [value_index]. now rewrite index_out_of_range by lia.
Qed.

Lemma in_keys_get {V : Type} (d : PyDict.dict V) (k : str) :
  In k (PyDict.keys d) -> exists v, PyDict.get d k = Some v.
Proof.
  induction d as [|[k' v'] d IH]; [intros []|].
  cbn [PyDict.keys map fst In PyDict.get]. intros H.
  destruct (str_eqb k' k) eqn:E; [eauto|].
  apply str_eqb_neq in E. apply IH. tauto.
Qed.

Lemma not_in_existsb (k : str) (l : list str) :
  ~ In k l -> existsb (fun k' => str_eqb k' k) l = false.
Proof.
  intros H. destruct (existsb (fun k' => str_eqb k' k) l) eqn:E;
    [|reflexivity].
  apply existsb_str_eqb_In in E. contradiction.
Qed.

Lemma parse_sections_loop_bound (d : PyDict.dict value) (sections : list str)
      (printed : list str) :
  (forall k, In k sections -> In k (PyDict.keys d)) ->
  NoDup sections ->
  length (fst (parse_sections_loop d sections printed))
  <= length printed
     + (if existsb (fun k => str_eqb k (lit "{{ PRETEND EMERGE }}")) sections
        then 1 else 0)
     + (if existsb (fun k => str_eqb k (lit "{{ UPDATE SYSTEM }}")) sections
        then 2 else 0)
  /\ (forall e,
         snd (parse_sections_loop d sections printed) = Raise e ->
         e = IndexError /\ In (lit "{{ UPDATE SYSTEM }}") sections).
Proof.
  revert printed. induction sections as [|k sections IH]; intros printed Hk Hnd.
  - cbn. split; [lia | discriminate].
  - inversion Hnd as [|? ? Hnotin Hnd']; subst.
    assert (Hk' : forall k0, In k0 sections -> In k0 (PyDict.keys d))
      by (intros k0 H0; apply Hk; now right).
    destruct (in_keys_get d k (Hk k (or_introl eq_refl))) as [v Hv].
    cbn [parse_sections_loop existsb]. rewrite Hv.
    destruct (str_eqb k (lit "{{ PRETEND EMERGE }}")) eqn:Ep.
    + apply str_eqb_eq in Ep. subst k.
      change (str_eqb (lit "{{ PRETEND EMERGE }}") (lit "{{ UPDATE SYSTEM }}"))
        with false.
      cbn [orb].
      destruct (IH (printed ++ parse_emerge_pretend_section v) Hk' Hnd')
        as [Hlen Hraise].
      assert (Hnp : existsb (fun k => str_eqb k (lit "{{ PRETEND EMERGE }}"))
                      sections = false)
        by now apply not_in_existsb.
      rewrite Hnp in Hlen. split.
      * rewrite length_app in Hlen.
        assert (length (parse_emerge_pretend_section v) = 1)
          by (unfold parse_emerge_pretend_section;
              now destruct (value_contains _ v)).
        lia.
      * intros e He. destruct (Hraise e He) as [-> Hin]. split; [reflexivity|].
        now right.
    + cbn [orb]. destruct (str_eqb k (lit "{{ UPDATE SYSTEM }}")) eqn:Eu.
      * apply str_eqb_eq in Eu. subst k. cbn [orb].
        assert (Hnu : existsb (fun k => str_eqb k (lit "{{ UPDATE SYSTEM }}"))
                        sections = false)
          by now apply not_in_existsb.
        destruct (parse_update_system_section v) as [lines|e0] eqn:Eup.
        -- destruct (IH (printed ++ lines) Hk' Hnd') as [Hlen Hraise].
           rewrite Hnu in Hlen. apply update_system_lines in Eup. split.
           ++ rewrite length_app in Hlen.
              destruct (existsb _ sections); lia.
           ++ intros e He. destruct (Hraise e He) as [-> Hin].
              split; [reflexivity | now right].
        -- cbn [fst snd]. split.
           ++ destruct (existsb _ sections); lia.
           ++ intros e [= <-]. apply update_system_raises in Eup.
              split; [exact Eup | now left].
      * cbn [orb]. destruct (IH printed Hk' Hnd') as [Hlen Hraise].
        split; [exact Hlen|]. intros e He.
        destruct (Hraise e He) as [-> Hin]. split; [reflexivity | now right].
Qed.

Lemma split_step_nodup (st st' : Parser.split_state) (line : str) :
  NoDup (PyDict.keys (Parser.log_by_sections st)) ->
  Parser.split_step st line = Ok st' ->
  NoDup (PyDict.keys (Parser.log_by_sections st')).
Proof.
  intros Hnd. unfold Parser.split_step.
  destruct (contains Parser.marker line).
  - destruct (index (split Parser.marker line) 1) as [p|]; [|discriminate].
    cbn [bind]. destruct (Re.search _ _).
    + intros [= <-]. cbn. now apply NoDup_keys_set.
    + unfold Parser.append_line.
      destruct (PyDict.get _ _) as [[s|l]|]; try discriminate.
      cbn [bind]. intros [= <-]. cbn. now apply NoDup_keys_set.
  - intros [= <-]. cbn. now apply NoDup_keys_set.
Qed.

Lemma split_loop_nodup (lines : list str) (st st' : Parser.split_state) :
  NoDup (PyDict.keys (Parser.log_by_sections st)) ->
  for_each Parser.split_step lines st = Ok st' ->
  NoDup (PyDict.keys (Parser.log_by_sections st')).
Proof.
  revert st. induction lines as [|line lines IH]; intros st Hnd.
  - cbn. now intros [= <-].
  - cbn [for_each].
    destruct (Parser.split_step st line) as [st1|] eqn:E; [|discriminate].
    cbn [bind]. apply IH. now apply (split_step_nodup st st1 line).
Qed.

Lemma split_result_facts (lines : list str) :
  exists d,
    Parser.split_log_to_sections lines = Ok d
    /\ NoDup (PyDict.keys d)
    /\ section_keys d = lit "beginning" :: first_occurrences (headers lines).
Proof.
  destruct (split_loop_keeps lines [] Parser.split_init split_keeps_init)
    as [st [Hs [_ [_ [_ [_ Hkeys]]]]]].
  exists (Parser.log_by_sections st). unfold Parser.split_log_to_sections.
  rewrite Hs. cbn [bind app] in *. split; [reflexivity|].
  split; [|exact Hkeys].
  apply (split_loop_nodup lines Parser.split_init st); [|exact Hs].
  cbn. repeat constructor. intros [].
Qed.

(** X20.  Building a [Parser] on the lines of a log can only raise
    [IndexError], and only when the log has the header
    [{{ UPDATE SYSTEM }}]: on every other log the constructor returns. *)
Theorem Parser_init_raises (file_lines printed : list str) (e : exn) :
  Parser_init file_lines = (printed, Raise e) ->
  e = IndexError /\ In (lit "{{ UPDATE SYSTEM }}") (headers file_lines).
Proof.
  unfold Parser_init, read_log.
  destruct (split_result_facts file_lines) as [d [-> [Hnd Hkeys]]].
  unfold parse_sections. intros H.
  destruct (parse_sections_loop_bound d (PyDict.keys d) []
              ltac:(auto) Hnd) as [_ Hraise].
  rewrite H in Hraise. destruct (Hraise e eq_refl) as [-> Hin].
  split; [reflexivity|].
  assert (Hs : In (lit "{{ UPDATE SYSTEM }}") (section_keys d)).
  { unfold section_keys. apply filter_In. split; [exact Hin | reflexivity]. }
  rewrite Hkeys in Hs. destruct Hs as [E | Hs];
    [vm_compute in E; discriminate E|].
  exact (proj1 (first_occurrences_In _ _) Hs).
Qed.

Lemma Parser_init_raises_witness :
  let log := [lit "10:02 INFO ::: {{ UPDATE SYSTEM }}";
              lit "10:02 INFO ::: update was successful"] in
  Parser_init log = ([], Raise IndexError)
  /\ In (lit "{{ UPDATE SYSTEM }}") (headers log).
Proof.
  intros log.
  assert (H : Parser_init log = ([], Raise IndexError))
    by (vm_compute; reflexivity).
  split; [exact H|].
  exact (proj2 (Parser_init_raises log [] IndexError H)).
Defined.

(** X21.  A [Parser] prints at most three lines whatever the log, one
    verdict on the pretend section and at most two lines on the update
    section, however often their headers come in the log. *)
Theorem Parser_init_prints_at_most_three (file_lines : list str) :
  length (fst (Parser_init file_lines)) <= 3.
Proof.
  unfold Parser_init, read_log.
  destruct (split_result_facts file_lines) as [d [-> [Hnd _]]].
  unfold parse_sections.
  destruct (parse_sections_loop_bound d (PyDict.keys d) []
              ltac:(auto) Hnd) as [Hlen _].
  cbn [length] in Hlen.
  destruct (existsb _ (PyDict.keys d)), (existsb _ (PyDict.keys d)); lia.
Qed.

Lemma parse_sections_loop_pretend (d : PyDict.dict value) (v : value)
      (sections printed : list str) :
  (forall k, In k sections -> In k (PyDict.keys d)) ->
  NoDup sections ->
  ~ In (lit "{{ UPDATE SYSTEM }}") sections ->
  PyDict.get d (lit "{{ PRETEND EMERGE }}") = Some v ->
  parse_sections_loop d sections printed
  = (printed
     ++ (if existsb (fun k => str_eqb k (lit "{{ PRETEND EMERGE }}")) sections
         then parse_emerge_pretend_section v else []),
     Ok tt).
Proof.
  intros Hk Hnd Hnu Hv. revert printed Hk Hnd Hnu.
  induction sections as [|k sections IH]; intros printed Hk Hnd Hnu.
  - cbn. now rewrite app_nil_r.
  - inversion Hnd as [|? ? Hnotin Hnd']; subst.
    assert (Hk' : forall k0, In k0 sections -> In k0 (PyDict.keys d))
      by (intros k0 H0; apply Hk; now right).
    assert (Hnu' : ~ In (lit "{{ UPDATE SYSTEM }}") sections)
      by (intros H; apply Hnu; now right).
    cbn [parse_sections_loop existsb].
    destruct (str_eqb k (lit "{{ PRETEND EMERGE }}")) eqn:Ep.
    + apply str_eqb_eq in Ep. subst k. rewrite Hv. cbn [orb].
      rewrite (IH _ Hk' Hnd' Hnu'), (not_in_existsb _ _ Hnotin).
      now rewrite app_nil_r.
    + cbn [orb]. destruct (in_keys_get d k (Hk k (or_introl eq_refl)))
        as [w Hw].
      rewrite Hw.
      destruct (str_eqb k (lit "{{ UPDATE SYSTEM }}")) eqn:Eu.
      * apply str_eqb_eq in Eu. subst k. exfalso. apply Hnu. now left.
      * now apply IH.
Qed.

(** X22.  What a [Parser] says of the pretend run depends only on the lines
    that follow the last [{{ PRETEND EMERGE }}] header: when no header comes
    after it and the log has no [{{ UPDATE SYSTEM }}] header, the
    constructor prints the one line [Pretend completed without errors] if
    the payload [emerge pretend was successful, updating...] is among the
    marked lines after that header, and [Pretend exited with errors: ]
    otherwise. *)
Theorem pretend_verdict_from_last_header (pre : list str) (header_line : str)
        (body : list str) :
  is_marked header_line = true ->
  payload header_line = lit "{{ PRETEND EMERGE }}" ->
  headers body = [] ->
  ~ In (lit "{{ UPDATE SYSTEM }}") (headers pre) ->
  Parser_init (pre ++ header_line :: body)
  = ([if existsb
          (str_eqb (lit "emerge pretend was successful, updating..."))
          (contents body)
      then lit "Pretend completed without errors"
      else lit "Pretend exited with errors: "],
     Ok tt).
Proof.
  intros Hm Hp Hb Hnu.
  assert (Hh : is_header (payload header_line) = true) by now rewrite Hp.
  destruct (split_after_last_header pre header_line body Hm Hh Hb)
    as [d [Hd Hget]].
  destruct (split_result_facts (pre ++ header_line :: body))
    as [d' [Hd' [Hnd Hkeys]]].
  rewrite Hd in Hd'. injection Hd' as <-.
  unfold Parser_init, read_log. rewrite Hd. unfold parse_sections.
  rewrite Hp in Hget.
  rewrite (parse_sections_loop_pretend d (VList (contents body))
             (PyDict.keys d) [] ltac:(auto) Hnd).
  - apply get_some_in_keys, existsb_str_eqb_In in Hget.
    rewrite Hget. cbn [app]. unfold parse_emerge_pretend_section.
    cbn [value_contains]. now destruct (existsb _ (contents body)).
  - intros Hin.
    assert (Hs : In (lit "{{ UPDATE SYSTEM }}") (section_keys d)).
    { unfold section_keys. apply filter_In. split; [exact Hin | reflexivity]. }
    rewrite Hkeys in Hs. destruct Hs as [E | Hs];
      [vm_compute in E; discriminate E|].
    apply (proj1 (first_occurrences_In _ _)) in Hs.
    rewrite headers_app, headers_cons, Hm, Hh, Hb, Hp in Hs.
    cbn [andb app] in Hs. apply in_app_or in Hs.
    destruct Hs as [Hs | [E | []]]; [contradiction|].
    vm_compute in E. discriminate E.
  - exact Hget.
Qed.

Lemma pretend_verdict_from_last_header_witness :
  Parser_init
    ([lit "10:00 INFO ::: {{ PRETEND EMERGE }}";
      lit "10:00 INFO ::: emerge pretend was successful, updating..."]
     ++ lit "10:05 INFO ::: {{ PRETEND EMERGE }}"
     :: [lit "10:05 INFO ::: emerge: there are no ebuilds to satisfy x"])
  = ([lit "Pretend exited with errors: "], Ok tt).
Proof.
  exact (pretend_verdict_from_last_header
           [lit "10:00 INFO ::: {{ PRETEND EMERGE }}";
            lit "10:00 INFO ::: emerge pretend was successful, updating..."]
           (lit "10:05 INFO ::: {{ PRETEND EMERGE }}")
           [lit "10:05 INFO ::: emerge: there are no ebuilds to satisfy x"]
           eq_refl eq_refl eq_refl ltac:(vm_compute; intuition discriminate)).
Defined.

(** ** Assignments [KEY="v1 v2"] *)

Lemma split_join_char (c : ascii) (vs : list str) :
  vs <> [] -> Forall (fun v => ~ In c v) vs ->
  split [c] (join [c] vs) = vs.
Proof.
  unfold split. induction vs as [|v [|w vs] IH]; intros Hne Hall.
  - contradiction.
  - inversion Hall; subst. cbn [join].
    now rewrite split_char_none.
  - inversion Hall as [|? ? Hv Hrest]; subst.
    change (join [c] (v :: w :: vs)) with (v ++ c :: join [c] (w :: vs)).
    rewrite (split_char_first c v _ [] Hv). cbn [app]. f_equal.
    apply IH; [discriminate | exact Hrest].
Qed.

Lemma not_in_join (c : ascii) (sep : str) (vs : list str) :
  ~ In c sep -> Forall (fun v => ~ In c v) vs -> ~ In c (join sep vs).
Proof.
  intros Hs. induction vs as [|v [|w vs] IH]; intros Hall.
  - intros [].
  - now inversion Hall.
  - inversion Hall as [|? ? Hv Hrest]; subst.
    change (join sep (v :: w :: vs)) with (v ++ sep ++ join sep (w :: vs)).
    intros Hin. apply in_app_or in Hin. destruct Hin as [Hin | Hin];
      [contradiction|].
    apply in_app_or in Hin. destruct Hin as [Hin | Hin]; [contradiction|].
    now apply IH in Hin.
Qed.

(** X24.  For a token [KEY="v1 v2 ... vn"], with at least one value and no
    space and no equals sign inside a value or the key, the loop of the
    ebuild builder stores under [KEY] exactly the list of the values, in
    their order. *)
Theorem assignment_values_roundtrip (p : PackageInfo) (key : str)
        (values : list str) :
  values <> [] ->
  ~ In "="%char key ->
  Forall (fun v => ~ In " "%char v) values ->
  Forall (fun v => ~ In "="%char v) values ->
  attr_step p (key ++ lit "=" ++ [dquote] ++ join (lit " ") values ++ [dquote])
  = Ok (add_attributes p [(key, VList values)]).
Proof.
  intros Hne Hk Hsp Heq.
  set (quoted := dquote :: join (lit " ") values ++ [dquote]).
  change (key ++ lit "=" ++ [dquote] ++ join (lit " ") values ++ [dquote])
    with (key ++ "="%char :: quoted).
  rewrite attr_step_one_equals.
  - unfold quoted, slice_inner. cbn [tl]. rewrite removelast_last.
    change (lit " ") with [" "%char].
    now rewrite (split_join_char " " values Hne Hsp).
  - exact Hk.
  - unfold quoted. intros [E | Hin]; [vm_compute in E; discriminate E|].
    apply in_app_or in Hin. destruct Hin as [Hin | [E | []]].
    + revert Hin. apply not_in_join; [|exact Heq].
      vm_compute. intuition discriminate.
    + vm_compute in E. discriminate E.
  - apply contains_spec. exists key, (join (lit " ") values ++ [dquote]).
    unfold quoted. reflexivity.
Qed.

Lemma assignment_values_roundtrip_witness :
  let p := PackageInfo_init (lit "ebuild") (lit "app-misc/foo") None None
             (lit "Update") None in
  attr_step p (lit "USE=" ++ [dquote] ++ lit "acl -debug nls" ++ [dquote])
  = Ok (add_attributes p
          [(lit "USE", VList [lit "acl"; lit "-debug"; lit "nls"])]).
Proof.
  intros p.
  exact (assignment_values_roundtrip p (lit "USE")
           [lit "acl"; lit "-debug"; lit "nls"]
           ltac:(discriminate)
           ltac:(vm_compute; intuition discriminate)
           ltac:(repeat constructor; vm_compute; intuition discriminate)
           ltac:(repeat constructor; vm_compute; intuition discriminate)).
Defined.

Lemma nosep_quoted (v : str) (st : scan_state) :
  fst st = true -> ~ In dquote v -> nosep st v = true /\ fst (scan st v) = true.
Proof.
  revert st. induction v as [|c v IH]; intros [o d] Ho Hn; [now split|].
  cbn [fst] in Ho. subst o.
  assert (Hc : Ascii.eqb c dquote = false).
  { destruct (Ascii.eqb_spec c dquote) as [->|]; [|reflexivity].
    exfalso. apply Hn. now left. }
  assert (Hf : fst (scan_step (true, d) c) = true).
  { unfold scan_step. rewrite Hc. cbn [fst].
    destruct (Ascii.eqb c "["); [reflexivity|].
    now destruct (Ascii.eqb c "]"). }
  destruct (IH (scan_step (true, d) c) Hf) as [Hns Hsc].
  { intros H. apply Hn. now right. }
  cbn [nosep scan fold_left]. cbv zeta. rewrite Hns. split; [|exact Hsc].
  unfold outside. rewrite Hf. cbn [negb andb]. now rewrite andb_false_r.
Qed.

Lemma nosep_word (key : str) :
  forallb (fun c => negb (Ascii.eqb c dquote || Ascii.eqb c "["
                          || Ascii.eqb c "]" || Ascii.eqb c " ")) key = true ->
  nosep scan0 key = true /\ scan scan0 key = scan0.
Proof.
  generalize scan0 as st.
  induction key as [|c key IH]; intros st H; [now split|].
  cbn [forallb] in H. apply andb_true_iff in H. destruct H as [Hc Hk].
  apply negb_true_iff in Hc. rewrite !orb_false_iff in Hc.
  destruct Hc as [[[Hq Ho] Hcl] Hsp].
  assert (Hst : scan_step st c = st) by (unfold scan_step; now rewrite Hq, Ho, Hcl).
  cbn [nosep scan fold_left]. cbv zeta. rewrite Hst, Hsp. cbn [andb negb].
  now apply IH.
Qed.

(** X25.  An assignment [KEY="..."] followed by a space is one token, the
    spaces of its quoted value included, when the key is a non-empty word
    without space, quote or bracket that does not start with whitespace and
    the value has no quote and no bracket; the other tokens are those of the
    rest of the line. *)
Theorem quoted_assignment_is_one_token (key value_text rest : str) :
  key <> [] -> isspace (hd " "%char key) = false ->
  forallb (fun c => negb (Ascii.eqb c dquote || Ascii.eqb c "["
                          || Ascii.eqb c "]" || Ascii.eqb c " ")) key = true ->
  forallb (fun c => negb (Ascii.eqb c dquote || Ascii.eqb c "["
                          || Ascii.eqb c "]")) value_text = true ->
  _parse_package_string
    (key ++ lit "=" ++ [dquote] ++ value_text ++ [dquote] ++ " "%char :: rest)
  = (key ++ lit "=" ++ [dquote] ++ value_text ++ [dquote])
    :: _parse_package_string rest.
Proof.
  intros Hne Hhd Hkey Hval. rewrite !tokens_chunks.
  set (p := key ++ lit "=" ++ [dquote] ++ value_text ++ [dquote]).
  assert (Hline : key ++ lit "=" ++ [dquote] ++ value_text ++ [dquote]
                      ++ " "%char :: rest
                  = p ++ " "%char :: rest).
  { unfold p. now rewrite <- !app_assoc. }
  destruct (nosep_word key Hkey) as [Hnk Hsk].
  assert (Hnq : ~ In dquote value_text).
  { intros Hin. rewrite forallb_forall in Hval. specialize (Hval _ Hin).
    now rewrite Ascii.eqb_refl in Hval. }
  assert (Hscan : scan scan0 p = scan0).
  { unfold p. rewrite !scan_app, Hsk. cbn [lit list_ascii_of_string].
    change (scan (scan scan0 ["="%char]) [dquote]) with ((true, 0%Z) : scan_state).
    now rewrite (scan_plain value_text _ Hval). }
  assert (Hnosep : nosep scan0 p = true).
  { unfold p. rewrite !nosep_app, Hnk, Hsk.
    cbn [lit list_ascii_of_string].
    change (scan (scan scan0 ["="%char]) [dquote]) with ((true, 0%Z) : scan_state).
    destruct (nosep_quoted value_text (true, 0%Z) eq_refl Hnq) as [Hnv _].
    rewrite Hnv, (scan_plain value_text _ Hval). reflexivity. }
  rewrite Hline, chunks_app_sep by now rewrite Hscan.
  rewrite (chunks_nosep_then_space p scan0 [] Hnosep) by now rewrite Hscan.
  cbn [app map]. f_equal.
  rewrite strip_app_space by reflexivity.
  unfold strip, p. destruct key as [|k key']; [contradiction|].
  cbn [hd] in Hhd. cbn [app lstrip]. rewrite Hhd.
  assert (E : k :: key' ++ lit "=" ++ dquote :: value_text ++ [dquote]
              = (k :: key' ++ lit "=" ++ dquote :: value_text) ++ [dquote]).
  { cbn [app]. f_equal. rewrite <- !app_assoc. reflexivity. }
  rewrite E. now apply rstrip_keep.
Qed.

Lemma quoted_assignment_is_one_token_witness :
  _parse_package_string
    (lit "USE=" ++ [dquote] ++ lit "acl -debug nls" ++ [dquote] ++ lit " 72 KiB")
  = [lit "USE=" ++ [dquote] ++ lit "acl -debug nls" ++ [dquote];
     lit "72"; lit "KiB"].
Proof.
  exact (quoted_assignment_is_one_token (lit "USE") (lit "acl -debug nls")
           (lit "72 KiB") ltac:(discriminate) eq_refl eq_refl eq_refl).
Defined.

(** ** The sections of a log, run by run *)

Lemma section_runs_keys (seen : list str) (name : str) (lines : list str) :
  map fst (section_runs_from name lines seen) = name :: headers seen.
Proof.
  revert name lines. induction seen as [|x seen IH]; intros name lines.
  - reflexivity.
  - cbn [section_runs_from]. rewrite headers_cons.
    destruct (is_marked x); cbn [andb].
    + destruct (is_header (payload x)); cbn [map fst app].
      * now rewrite IH.
      * apply IH.
    + apply IH.
Qed.

Lemma section_runs_snoc (seen : list str) (name : str) (lines : list str)
      (line : str) :
  exists init k ls,
    section_runs_from name lines seen = init ++ [(k, ls)]
    /\ section_runs_from name lines (seen ++ [line])
       = if is_marked line then
           if is_header (payload line)
           then init ++ [(k, ls); (payload line, [])]
           else init ++ [(k, ls ++ [payload line])]
         else init ++ [(k, ls)].
Proof.
  revert name lines. induction seen as [|x seen IH]; intros name lines.
  - exists [], name, lines. split; [reflexivity|].
    cbn [app section_runs_from].
    destruct (is_marked line); [|reflexivity].
    now destruct (is_header (payload line)).
  - cbn [app section_runs_from]. destruct (is_marked x).
    + destruct (is_header (payload x)).
      * destruct (IH (payload x) []) as [init [k [ls [H1 H2]]]].
        exists ((name, lines) :: init), k, ls. rewrite H1, H2.
        split; [reflexivity|]. destruct (is_marked line); [|reflexivity].
        now destruct (is_header (payload line)).
      * apply IH.
    + apply IH.
Qed.

Lemma keys_as_sections (runs : list (str * list str)) :
  PyDict.keys (as_sections runs) = map fst runs.
Proof.
  unfold PyDict.keys, as_sections. rewrite map_map. reflexivity.
Qed.

Lemma as_sections_app (a b : list (str * list str)) :
  as_sections (a ++ b) = as_sections a ++ as_sections b.
Proof. apply map_app. Qed.

Lemma without_final_set_final (d : PyDict.dict value) (v : value) :
  sections_without_final (PyDict.set d (lit "final") v)
  = sections_without_final d.
Proof.
  induction d as [|[k' v'] d IH]; [reflexivity|].
  cbn [PyDict.set]. destruct (str_eqb k' (lit "final")) eqn:E.
  - unfold sections_without_final. cbn [filter fst]. now rewrite E.
  - unfold sections_without_final in *. cbn [filter fst]. rewrite E.
    cbn [negb]. now rewrite IH.
Qed.

Lemma without_final_set_other (d : PyDict.dict value) (k : str) (v : value) :
  k <> lit "final" ->
  sections_without_final (PyDict.set d k v)
  = PyDict.set (sections_without_final d) k v.
Proof.
  intros Hk. apply str_eqb_neq in Hk.
  induction d as [|[k' v'] d IH].
  - unfold sections_without_final. cbn [PyDict.set filter fst].
    now rewrite Hk.
  - cbn [PyDict.set]. unfold sections_without_final in *.
    destruct (str_eqb k' k) eqn:E.
    + apply str_eqb_eq in E. subst k'. cbn [filter fst]. rewrite Hk.
      cbn [negb PyDict.set]. now rewrite str_eqb_refl.
    + cbn [filter fst]. destruct (str_eqb k' (lit "final")); cbn [negb].
      * exact IH.
      * cbn [PyDict.set]. rewrite E. now rewrite IH.
Qed.

Lemma get_without_final (d : PyDict.dict value) (k : str) :
  k <> lit "final" ->
  PyDict.get (sections_without_final d) k = PyDict.get d k.
Proof.
  intros Hk. induction d as [|[k' v'] d IH]; [reflexivity|].
  unfold sections_without_final in *. cbn [filter fst PyDict.get].
  destruct (str_eqb k' (lit "final")) eqn:Ef; cbn [negb].
  - apply str_eqb_eq in Ef. subst k'.
    assert (E : str_eqb (lit "final") k = false)
      by (apply str_eqb_neq; congruence).
    now rewrite E.
  - cbn [PyDict.get]. now rewrite IH.
Qed.

Lemma NoDup_snoc_notin {A : Type} (l : list A) (a : A) :
  NoDup (l ++ [a]) -> ~ In a l.
Proof.
  intros H Hin. apply NoDup_remove_2 in H. apply H.
  rewrite app_nil_r. exact Hin.
Qed.

Lemma split_step_runs (seen : list str) (st st' : Parser.split_state)
      (line : str) (init : list (str * list str)) (ls : list str) :
  NoDup (headers (seen ++ [line])) ->
  section_runs seen = init ++ [(Parser.section_name st, ls)] ->
  sections_without_final (Parser.log_by_sections st)
  = as_sections (section_runs seen) ->
  Parser.split_step st line = Ok st' ->
  (exists init' ls',
      section_runs (seen ++ [line])
      = init' ++ [(Parser.section_name st', ls')])
  /\ sections_without_final (Parser.log_by_sections st')
     = as_sections (section_runs (seen ++ [line])).
Proof.
  destruct st as [name d].
  cbn [Parser.log_by_sections Parser.section_name].
  intros Hnd Hruns Hswf.
  pose proof (section_runs_keys seen (lit "beginning") []) as Hkeys.
  fold (section_runs seen) in Hkeys.
  assert (Hnds : NoDup (lit "beginning" :: headers seen)).
  { constructor.
    - intros Hin. apply filter_In in Hin. destruct Hin as [_ Hh].
      now apply header_not_reserved in Hh.
    - rewrite headers_snoc in Hnd. now apply NoDup_app_l in Hnd. }
  assert (Hname : In name (lit "beginning" :: headers seen)).
  { rewrite <- Hkeys, Hruns, map_app. apply in_or_app. right. now left. }
  assert (Hnf : name <> lit "final").
  { destruct Hname as [<- | Hin]; [discriminate|].
    apply filter_In in Hin. destruct Hin as [_ Hh].
    now apply header_not_reserved in Hh. }
  assert (Hninit : ~ In name (PyDict.keys (as_sections init))).
  { rewrite keys_as_sections. apply NoDup_snoc_notin.
    rewrite <- Hkeys, Hruns, map_app in Hnds. exact Hnds. }
  destruct (section_runs_snoc seen (lit "beginning") [] line)
    as [init0 [k0 [ls0 [H1 H2]]]].
  fold (section_runs seen) in H1. fold (section_runs (seen ++ [line])) in H2.
  rewrite Hruns in H1. apply app_inj_tail in H1.
  destruct H1 as [<- E]. injection E as <- <-.
  unfold Parser.split_step.
  cbn [Parser.log_by_sections Parser.section_name].
  change (contains Parser.marker line) with (is_marked line).
  rewrite headers_snoc in Hnd.
  destruct (is_marked line) eqn:Hm; cbn [andb] in Hnd.
  - rewrite (marked_payload line Hm). cbn [bind].
    change (strip (nth 1 (split Parser.marker line) [])) with (payload line).
    change (Re.search Parser.section_pattern (payload line))
      with (is_header (payload line)).
    set (x := payload line) in *.
    destruct (is_header x) eqn:Hh.
    + intros [= <-]. cbn [Parser.log_by_sections Parser.section_name].
      destruct (header_not_reserved x Hh) as [Hxf Hxb].
      rewrite H2. split.
      * exists (init ++ [(name, ls)]), []. now rewrite <- app_assoc.
      * rewrite (without_final_set_other d x _ Hxf), Hswf, Hruns.
        rewrite set_notin.
        -- change [(name, ls); (x, [])] with ([(name, ls)] ++ [(x, [])]).
           rewrite app_assoc. now rewrite (as_sections_app (init ++ [(name, ls)])).
        -- rewrite keys_as_sections, <- Hruns, Hkeys.
           intros [E | Hin]; [congruence|].
           apply NoDup_snoc_notin in Hnd. contradiction.
    + unfold Parser.append_line.
      assert (Hget : PyDict.get d name = Some (VList ls)).
      { rewrite <- (get_without_final d name Hnf), Hswf, Hruns.
        rewrite as_sections_app, get_app, (get_notin _ _ Hninit).
        cbn [as_sections map fst snd PyDict.get]. now rewrite str_eqb_refl. }
      rewrite Hget. cbn [bind]. intros [= <-].
      cbn [Parser.log_by_sections Parser.section_name]. rewrite H2. split.
      * now exists init, (ls ++ [x]).
      * rewrite (without_final_set_other d name _ Hnf), Hswf, Hruns.
        rewrite !as_sections_app, (set_app_notin _ _ _ _ Hninit).
        cbn [as_sections map fst snd PyDict.set]. now rewrite str_eqb_refl.
  - intros [= <-]. cbn [Parser.log_by_sections Parser.section_name].
    rewrite H2. split.
    + now exists init, ls.
    + now rewrite without_final_set_final, Hswf, Hruns.
Qed.

Lemma split_loop_runs (rest seen : list str) (st st' : Parser.split_state)
      (init : list (str * list str)) (ls : list str) :
  NoDup (headers (seen ++ rest)) ->
  section_runs seen = init ++ [(Parser.section_name st, ls)] ->
  sections_without_final (Parser.log_by_sections st)
  = as_sections (section_runs seen) ->
  for_each Parser.split_step rest st = Ok st' ->
  sections_without_final (Parser.log_by_sections st')
  = as_sections (section_runs (seen ++ rest)).
Proof.
  revert seen st init ls.
  induction rest as [|line rest IH]; intros seen st init ls Hnd Hruns Hswf.
  - cbn. intros [= <-]. now rewrite app_nil_r.
  - assert (E : seen ++ line :: rest = (seen ++ [line]) ++ rest)
      by now rewrite <- app_assoc.
    rewrite E in *. cbn [for_each].
    destruct (Parser.split_step st line) as [st1|] eqn:Hs; [|discriminate].
    cbn [bind].
    destruct (split_step_runs seen st st1 line init ls) as [[i1 [l1 Hr1]] Hw1];
      try assumption.
    { rewrite headers_app in Hnd. now apply NoDup_app_l in Hnd. }
    now apply (IH (seen ++ [line]) st1 i1 l1).
Qed.

(** C3, as amended.  For a log whose section headers are pairwise distinct,
    [split_log_to_sections] returns a mapping with distinct keys whose
    content lists, taken section after section, hold exactly the payloads of
    the marked lines that are not headers, each once and in the order of the
    log; a header line gives a key and no content line: the keys other than
    ["final"] are ["beginning"] and the headers, and each holds the payloads
    of the marked lines between its header and the next; and ["final"] holds
    the last unmarked line alone, when there is one. *)
Theorem split_log_to_sections_partition (log_data : list str) :
  NoDup (headers log_data) ->
  exists d,
    Parser.split_log_to_sections log_data = Ok d
    /\ NoDup (PyDict.keys d)
    /\ PyDict.keys (sections_without_final d)
       = lit "beginning" :: headers log_data
    /\ sections_without_final d = as_sections (section_runs log_data)
    /\ section_lines d = contents log_data
    /\ PyDict.get d (lit "final") = option_map VStr (last_unmarked log_data).
Proof.
  intros Hnd.
  destruct (split_loop_inv log_data [] Parser.split_init split_inv_init Hnd)
    as [st [Hs [_ [_ [I3 [I4 [_ I7]]]]]]].
  assert (Hruns : sections_without_final (Parser.log_by_sections st)
                  = as_sections (section_runs log_data)).
  { apply (split_loop_runs log_data [] Parser.split_init st [] []);
      [exact Hnd | reflexivity | reflexivity | exact Hs]. }
  exists (Parser.log_by_sections st). unfold Parser.split_log_to_sections.
  rewrite Hs. cbn [bind app] in *.
  split; [reflexivity|]. split; [exact I7|]. split.
  - rewrite Hruns, keys_as_sections. apply section_runs_keys.
  - auto.
Qed.

Lemma split_log_to_sections_partition_witness :
  let log :=
    [lit "10:01 INFO ::: {{ PRETEND EMERGE }}";
     lit "10:01 INFO ::: emerge pretend was successful, updating...";
     lit "10:02 INFO ::: {{ UPDATE SYSTEM }}";
     lit "10:02 INFO ::: update was successful";
     lit "first stray line";
     lit "second stray line"] in
  NoDup (headers log)
  /\ exists d,
      Parser.split_log_to_sections log = Ok d
      /\ NoDup (PyDict.keys d)
      /\ PyDict.keys (sections_without_final d)
         = [lit "beginning"; lit "{{ PRETEND EMERGE }}";
            lit "{{ UPDATE SYSTEM }}"]
      /\ sections_without_final d
         = [(lit "beginning", VList []);
            (lit "{{ PRETEND EMERGE }}",
             VList [lit "emerge pretend was successful, updating..."]);
            (lit "{{ UPDATE SYSTEM }}", VList [lit "update was successful"])]
      /\ section_lines d = contents log
      /\ PyDict.get d (lit "final") = option_map VStr (last_unmarked log).
Proof.
  intros log.
  assert (Hnd : NoDup (headers log)).
  { vm_compute. repeat (constructor; [cbn; intuition discriminate|]).
    constructor. }
  split; [exact Hnd|]. exact (split_log_to_sections_partition log Hnd).
Defined.
